(** * RustChain network monitor: a shallow embedding of [rustchain_monitor.py]

    The development follows the single source file of the repository:

    - Python values as they come out of [response.json()], with Python's
      numeric tower ([bool] below [int] below [float]) and binary64 floats
      as Rocq's primitive floats;
    - [RustChainMonitor.calculate_expected_reward], the reward estimator;
    - the miner lookup, the snapshot display and the epoch check of
      [RustChainMonitor.watch_miner], one loop iteration at a time, with the
      exceptions each statement can raise and the two [except] clauses;
    - [RustChainMonitor.network_summary], with the insertion-ordered
      dictionary [by_arch] and the stable [sorted].

    Strings are Rocq strings: sequences of characters with code points
    0..255, on which [str.lower] is defined as Python defines it. *)

From Stdlib Require Import ZArith Floats Ascii String List Lia Bool.
From Stdlib Require Import Sorted Permutation.
From stdpp Require Import gmap strings list sorting.

Set Warnings "-inexact-float,-register-all,-clear-no-such-hyp".
Local Open Scope Z_scope.

(** ** Strings *)

Module PyStr.

(** [str.lower] on one code point below 256: the ASCII capitals and the
    Latin-1 capitals (U+00C0..U+00DE, the multiplication sign U+00D7
    apart) move down by 32, every other character stays. *)
Definition lower_char (c : ascii) : ascii :=
  let n := N_of_ascii c in
  if ((65 <=? n) && (n <=? 90))%N
     || ((192 <=? n) && (n <=? 222) && negb (n =? 215))%N
  then ascii_of_N (n + 32)
  else c.

Fixpoint lower (s : string) : string :=
  match s with
  | EmptyString => EmptyString
  | String c s' => String (lower_char c) (lower s')
  end.

(** Two characters that [lower] cannot tell apart. *)
Definition same_char_ignoring_case (a b : ascii) : bool :=
  bool_decide (lower_char a = lower_char b).

(** Character-wise comparison that ignores letter case, written without
    [lower] on whole strings: the usual meaning of a case-insensitive
    match. *)
Fixpoint equal_ignoring_case (s t : string) : bool :=
  match s, t with
  | EmptyString, EmptyString => true
  | String a s', String b t' =>
      same_char_ignoring_case a b && equal_ignoring_case s' t'
  | _, _ => false
  end.

End PyStr.

(** ** The reward estimator *)

Module Reward.
Import PyStr.

(** The dictionary literal of [calculate_expected_reward], in source
    order. *)
Definition multipliers_items : list (string * float) :=
  [ ("g4", 2.5%float);
    ("g5", 2.0%float);
    ("g3", 1.8%float);
    ("power8", 1.5%float);
    ("retro", 1.4%float);
    ("apple_silicon", 1.2%float);
    ("modern", 1.0%float) ].

Definition multipliers : gmap string float := list_to_map multipliers_items.

Definition base_reward : float := 1.5%float.

(** [multipliers.get(device_arch.lower(), 1.0)] *)
Definition multiplier (device_arch : string) : float :=
  default 1.0%float (multipliers !! lower device_arch).

(** [return base_reward * multiplier] *)
Definition calculate_expected_reward (device_arch : string) : float :=
  (base_reward * multiplier device_arch)%float.

End Reward.

(** ** Python values, numbers and exceptions *)

Module Py.

(** What [response.json()] returns. A JSON object becomes a [dict] with
    string keys; [true]/[false] become [bool], numbers [int] or [float]. *)
Inductive json : Type :=
| JNull
| JBool (b : bool)
| JInt (z : Z)
| JFloat (f : float)
| JStr (s : string)
| JList (l : list json)
| JDict (d : gmap string json).

(** Python's numbers as arithmetic sees them: [bool] is a subclass of
    [int], so [True] and [False] count as 1 and 0. *)
Inductive num : Type :=
| NInt (z : Z)
| NFloat (f : float).

Definition as_num (v : json) : option num :=
  match v with
  | JBool b => Some (NInt (if b then 1 else 0))
  | JInt z => Some (NInt z)
  | JFloat f => Some (NFloat f)
  | _ => None
  end.

(** [KeyboardInterrupt] derives from [BaseException]; everything else
    raised here derives from [Exception] and is kept by class name. *)
Inductive exn : Type :=
| KeyboardInterrupt
| Exception (cls : string).

Inductive result (A : Type) : Type :=
| Ok (a : A)
| Raise (e : exn).
Arguments Ok {A} a.
Arguments Raise {A} e.

Definition AttributeError := Exception "AttributeError".
Definition TypeError := Exception "TypeError".
Definition ValueError := Exception "ValueError".
Definition OverflowError := Exception "OverflowError".

(** [float(z)] for an [int]: the nearest binary64 value, or
    [OverflowError] when that would be infinite. *)
Definition float_of_int (z : Z) : option float :=
  match binary_normalize prec emax z 0 false with
  | S754_infinity _ => None
  | sf => Some (SF2Prim sf)
  end.

Definition to_float (n : num) : option float :=
  match n with
  | NInt z => float_of_int z
  | NFloat f => Some f
  end.

(** Python compares an [int] with a [float] by their exact values; [None]
    stands for an unordered pair (the float is a NaN). *)
Definition compare_int_float (z : Z) (f : float) : option comparison :=
  match Prim2SF f with
  | S754_nan => None
  | S754_infinity true => Some Gt
  | S754_infinity false => Some Lt
  | S754_zero _ => Some (z ?= 0)
  | S754_finite s m e =>
      let v := if s then Z.neg m else Z.pos m in
      Some (if 0 <=? e then z ?= v * 2 ^ e else z * 2 ^ (- e) ?= v)
  end.

(** [a > b] on numbers. *)
Definition gt (a b : num) : bool :=
  match a, b with
  | NInt x, NInt y => x >? y
  | NFloat x, NFloat y => (y <? x)%float
  | NInt x, NFloat y =>
      match compare_int_float x y with Some Gt => true | _ => false end
  | NFloat x, NInt y =>
      match compare_int_float y x with Some Lt => true | _ => false end
  end.

(** [a == b] on numbers. *)
Definition num_eqb (a b : num) : bool :=
  match a, b with
  | NInt x, NInt y => x =? y
  | NFloat x, NFloat y => (x =? y)%float
  | NInt x, NFloat y | NFloat y, NInt x =>
      match compare_int_float x y with Some Eq => true | _ => false end
  end.

(** [a - b]: exact on two ints, binary64 as soon as one side is a float
    (the int side is converted first, which can overflow). *)
Definition sub (a b : num) : result num :=
  match a, b with
  | NInt x, NInt y => Ok (NInt (x - y))
  | _, _ =>
      match to_float a, to_float b with
      | Some x, Some y => Ok (NFloat (x - y)%float)
      | _, _ => Raise OverflowError
      end
  end.

(** Truth value of an object, as [if x:] and [x and y or z] test it. *)
Definition truthy (v : json) : bool :=
  match v with
  | JNull => false
  | JBool b => b
  | JInt z => negb (z =? 0)
  | JFloat f => negb (f =? 0)%float
  | JStr s => negb (String.eqb s "")
  | JList l => match l with [] => false | _ => true end
  | JDict d => negb (bool_decide (d = ∅))
  end.

(** [d.get(key, dflt)]; only a [dict] has the method. *)
Definition get (d : json) (key : string) (dflt : json) : result json :=
  match d with
  | JDict m => Ok (default dflt (m !! key))
  | _ => Raise AttributeError
  end.

(** [v == s] for a string [s]: only an equal string compares equal. *)
Definition eq_str (v : json) (s : string) : bool :=
  match v with
  | JStr t => String.eqb t s
  | _ => false
  end.

Definition chars (s : string) : list json :=
  (fun c => JStr (String c EmptyString)) <$> list_ascii_of_string s.

(** What [for m in v] walks through: the items of a list, the keys of a
    dict, the characters of a string; anything else is not iterable. *)
Definition iter (v : json) : result (list json) :=
  match v with
  | JList l => Ok l
  | JDict d => Ok (JStr <$> (map_to_list d).*1)
  | JStr s => Ok (chars s)
  | _ => Raise TypeError
  end.

(** [len(v)] *)
Definition len (v : json) : result Z :=
  match v with
  | JList l => Ok (Z.of_nat (length l))
  | JDict d => Ok (Z.of_nat (size d))
  | JStr s => Ok (Z.of_nat (String.length s))
  | _ => Raise TypeError
  end.

(** A width-and-alignment spec ([<30], [15]) is accepted by strings and
    numbers; [None], lists and dicts only take the empty spec. *)
Definition format_width (v : json) : result json :=
  match v with
  | JNull | JList _ | JDict _ => Raise TypeError
  | _ => Ok v
  end.

(** Keys of a [dict] must be hashable. *)
Definition hashable (v : json) : bool :=
  match v with
  | JList _ | JDict _ => false
  | _ => true
  end.

(** The JSON decoder has one NaN object, which it returns for every
    [NaN] of the text: two NaNs of a parsed answer are the same object. *)
Definition same_nan (a b : json) : bool :=
  match a, b with
  | JFloat x, JFloat y => is_nan x && is_nan y
  | _, _ => false
  end.

(** Equality of two hashable values as dictionary keys: a [dict] takes
    two keys for one when they are the same object or compare equal.
    Strings are equal by content, numbers (bools included) by value,
    [None] is itself, and NaN, unequal to itself by value, is found by
    identity. *)
Definition key_eqb (a b : json) : bool :=
  match a, b with
  | JNull, JNull => true
  | JStr s, JStr t => String.eqb s t
  | _, _ =>
      same_nan a b
      || match as_num a, as_num b with
         | Some x, Some y => num_eqb x y
         | _, _ => false
         end
  end.

End Py.

(** ** Console output and the effect monad *)

Module Console.
Import Py.

(** One constructor per [print] of the program, carrying the values the
    line displays (the formatter receives them as they are here; padding
    and rounding to six decimals are the formatter's work). [Sleep] marks
    a call of [time.sleep] that started to wait. *)
Inductive event : Type :=
| Watching (miner_id : string)
| RefreshInterval (interval : Z)
| ClearScreen
| BoxTop
| Title
| BoxRule
| MinerIdLine (prefix : string)
| BalanceLine (balance : num)
| EpochLine (epoch : json)
| HardwareLine (arch : string)
| ExpectedLine (expected : float)
| StatusLine (active : bool)
| NotFoundLine
| BoxBottom
| NewEpoch (reward : num)
| Farewell
| ErrorLine (e : exn)
| Sleep (interval : Z)
| SummaryTitle
| NodeLine (healthy : bool)
| SummaryEpochLine (epoch : json)
| MinersLine (count : Z)
| DistributionHeader
| DistributionLine (arch : json) (count : Z).

(** A computation over local variables of type [S]: it prints, may
    assign the variables, and returns or raises. What was printed and
    assigned before an exception stays. *)
Definition M (S A : Type) : Type := S → list event * S * result A.

#[global] Instance M_ret {S} : MRet (M S) :=
  λ A a st, ([], st, Ok a).

#[global] Instance M_bind {S} : MBind (M S) :=
  λ A B f m st,
    match m st with
    | (out, st', Ok a) =>
        let '(out', st'', r) := f a st' in (out ++ out', st'', r)
    | (out, st', Raise e) => (out, st', Raise e)
    end.

Definition raise {S A} (e : exn) : M S A := λ st, ([], st, Raise e).

Definition print {S} (e : event) : M S unit := λ st, ([e], st, Ok tt).

Definition lift {S A} (r : result A) : M S A := λ st, ([], st, r).

Definition read {S} : M S S := λ st, ([], st, Ok st).

Definition assign {S} (st : S) : M S unit := λ _, ([], st, Ok tt).

(** The lengths [time.sleep] refuses for an [int] number of seconds. The
    length is first turned into nanoseconds on 64 bits, an
    [OverflowError] beyond 9223372036 seconds either way; a negative
    length that fits is a [ValueError]. *)
Definition sleep_refusal (interval : Z) : option exn :=
  if (interval <? -9223372036) || (9223372036 <? interval)
  then Some OverflowError
  else if interval <? 0 then Some ValueError
  else None.

(** [time.sleep(interval)]: a refused length raises at once; otherwise
    the call waits and ends as the world has it (it returns, or an
    interrupt or a platform error cuts it short). *)
Definition sleep {S} (interval : Z) (ending : result unit) : M S unit :=
  match sleep_refusal interval with
  | Some e => raise e
  | None => print (Sleep interval) ;; lift ending
  end.

End Console.

(** ** Insertion-ordered dictionaries and the stable [sorted] *)

Module Dict.
Section ordered.
Context {K V : Type} (eqb : K → K → bool).

(** A [dict] keeps its items in the order the keys were first
    inserted. *)
Definition t : Type := list (K * V).

(** [d.get(k, dflt)] *)
Fixpoint get (d : t) (k : K) (dflt : V) : V :=
  match d with
  | [] => dflt
  | (k', v) :: d' => if eqb k' k then v else get d' k dflt
  end.

(** [d[k] = v]: a key already present keeps its place (and the key
    object first stored); a new key goes to the end. *)
Fixpoint set (d : t) (k : K) (v : V) : t :=
  match d with
  | [] => [(k, v)]
  | (k', v') :: d' =>
      if eqb k' k then (k', v) :: d' else (k', v') :: set d' k v
  end.
End ordered.

Section sorting.
Context {A : Type} (key : A → Z).

Fixpoint insert_sorted (x : A) (l : list A) : list A :=
  match l with
  | [] => [x]
  | y :: l' =>
      if key x <=? key y then x :: l else y :: insert_sorted x l'
  end.

(** [sorted(l, key=key)]: ascending in [key], and stable, which fixes
    the result (an item goes in front of the later items with the same
    key). *)
Fixpoint sorted (l : list A) : list A :=
  match l with
  | [] => []
  | x :: l' => insert_sorted x (sorted l')
  end.
End sorting.
End Dict.

(** ** The monitor *)

Module Monitor.
Import PyStr Reward Py Console.

#[global] Instance result_ret : MRet result := λ A a, Ok a.
#[global] Instance result_bind : MBind result :=
  λ A B f r, match r with Ok a => f a | Raise e => Raise e end.

(** What the outside world does during one round of requests: the
    decoded body of each GET, or the exception the request or the
    decoding raised (an interrupt included); the clock; and how the two
    calls of [time.sleep] end. *)
Record world : Type := {
  health_response : result json;
  epoch_response : result json;
  miners_response : result json;
  balance_response : string → result json;
  now : float;
  sleep_ending : result unit;
  handler_sleep_ending : result unit
}.

Definition get_health (w : world) : result json := health_response w.
Definition get_epoch (w : world) : result json := epoch_response w.
Definition get_miners (w : world) : result json := miners_response w.

(** [response.json().get("balance_rtc", 0.0)] *)
Definition get_miner_balance (w : world) (miner_id : string) : result json :=
  body ← balance_response w miner_id;
  get body "balance_rtc" (JFloat 0).

(** [calculate_expected_reward] as it is called, on a value that is a
    string only if the node sent one: [.lower()] exists on [str] alone. *)
Definition expected_reward (arch : json) : result (string * float) :=
  match arch with
  | JStr s => Ok (s, calculate_expected_reward s)
  | _ => Raise AttributeError
  end.

(** [m.get("miner") == miner_id or m.get("miner_id") == miner_id] *)
Definition is_our_miner (m : json) (miner_id : string) : result bool :=
  a ← get m "miner" JNull;
  if eq_str a miner_id then Ok true
  else b ← get m "miner_id" JNull; Ok (eq_str b miner_id).

(** The [for m in miners: ... break] search. *)
Fixpoint find_miner (miners : list json) (miner_id : string)
  : result (option json) :=
  match miners with
  | [] => Ok None
  | m :: rest =>
      hit ← is_our_miner m miner_id;
      if hit : bool then Ok (Some m) else find_miner rest miner_id
  end.

(** The local variables that survive an iteration. Both are numbers at
    all times: they start as [0.0] and [0], and an iteration stores a
    balance only after formatting it with [.6f] and an epoch only after
    comparing it with the number stored before. *)
Record state : Type := { last_balance : num; last_epoch : num }.

Definition initial : state :=
  {| last_balance := NFloat 0; last_epoch := NInt 0 |}.

(** The values fetched at the top of the [try] block (lines 81-92). *)
Record fetched : Type := {
  balance : json;
  our_miner : option json;
  current_epoch : json
}.

Definition poll (miner_id : string) (w : world) : result fetched :=
  epoch_data ← get_epoch w;
  balance ← get_miner_balance w miner_id;
  miners ← get_miners w;
  ms ← iter miners;
  our_miner ← find_miner ms miner_id;
  current_epoch ← get epoch_data "current_epoch" (JInt 0);
  Ok {| balance := balance; our_miner := our_miner;
        current_epoch := current_epoch |}.

(** A number under a format spec ending in [f] ([.6f]): it goes through
    [float], which refuses an int that is too large. The number is
    returned as the formatter received it. *)
Definition format_f (n : num) : result num :=
  match to_float n with
  | Some _ => Ok n
  | None => Raise OverflowError
  end.

(** [balance:.6f] on whatever the node sent as the balance. *)
Definition format_balance (v : json) : result num :=
  match v with
  | JStr _ => Raise ValueError
  | _ =>
      match as_num v with
      | Some n => format_f n
      | None => Raise TypeError
      end
  end.

(** [time.time() - last_attest < 3600] *)
Definition is_active (now : float) (last_attest : json) : result bool :=
  match as_num last_attest with
  | Some n =>
      match to_float n with
      | Some t => Ok (gt (NInt 3600) (NFloat (now - t)%float))
      | None => Raise OverflowError
      end
  | None => Raise TypeError
  end.

(** The three lines shown for a miner found in the list (lines 107-113). *)
Definition show_miner (m : json) (w : world) : M state unit :=
  arch ← lift (get m "device_arch" (JStr "unknown"));
  last_attest ← lift (get m "last_attestation_time" (JInt 0));
  '(arch, expected) ← lift (expected_reward arch);
  print (HardwareLine arch);;
  print (ExpectedLine expected);;
  active ← lift (is_active (now w) last_attest);
  print (StatusLine active).

(** The snapshot box (lines 95-117); returns the balance as a number. *)
Definition display (miner_id : string) (w : world) (f : fetched)
  : M state num :=
  print ClearScreen;;
  print BoxTop;;
  print Title;;
  print BoxRule;;
  print (MinerIdLine (substring 0 40 miner_id));;
  bal ← lift (format_balance (balance f));
  print (BalanceLine bal);;
  print (EpochLine (current_epoch f));;
  print BoxRule;;
  match our_miner f with
  | Some m => if truthy m then show_miner m w else print NotFoundLine
  | None => print NotFoundLine
  end;;
  print BoxBottom;;
  mret bal.

(** The operand of [>] next to the number [last_epoch]: any other kind
    of value makes the comparison a [TypeError]. *)
Definition numeric (v : json) : result num :=
  match as_num v with
  | Some n => Ok n
  | None => Raise TypeError
  end.

(** Lines 120-122; returns the current epoch as a number. *)
Definition check_epoch (bal : num) (f : fetched) : M state num :=
  st ← read;
  epoch ← lift (numeric (current_epoch f));
  (if gt epoch (last_epoch st) && gt (last_epoch st) (NInt 0)
   then reward ← lift (sub bal (last_balance st));
        reward ← lift (format_f reward);
        print (NewEpoch reward)
   else mret tt);;
  mret epoch.

(** Lines 81-122: fetch, display, check for a new epoch. Returns the
    balance and the epoch, both as numbers. *)
Definition snapshot (miner_id : string) (w : world) : M state (num * num) :=
  f ← lift (poll miner_id w);
  bal ← display miner_id w f;
  epoch ← check_epoch bal f;
  mret (bal, epoch).

(** The body of the [try] block. *)
Definition try_body (miner_id : string) (interval : Z) (w : world)
  : M state unit :=
  '(bal, epoch) ← snapshot miner_id w;
  assign {| last_balance := bal; last_epoch := epoch |};;
  sleep interval (sleep_ending w).

(** [try: body / except KeyboardInterrupt: ... / except Exception: ...].
    A handler runs outside the [try]: what it raises is not caught. *)
Definition try_except {S A} (body : M S A)
    (on_interrupt : M S A) (on_exception : exn → M S A) : M S A :=
  λ st : S,
    match body st with
    | (out, st', Ok a) => (out, st', Ok a)
    | (out, st', Raise e) =>
        let handler :=
          match e with
          | KeyboardInterrupt => on_interrupt
          | Exception _ => on_exception e
          end in
        let '(out', st'', r) := handler st' in (out ++ out', st'', r)
    end.

(** How one pass through the loop ends. *)
Inductive control : Type := Continue | Break.

(** One pass through [while True]. *)
Definition iteration (miner_id : string) (interval : Z) (w : world)
  : M state control :=
  try_except
    (try_body miner_id interval w;; mret Continue)
    (print Farewell;; mret Break)
    (λ e, print (ErrorLine e);;
          sleep interval (handler_sleep_ending w);;
          mret Continue).

(** The loop, run against the worlds of its successive iterations; it
    stops early on [break] or on an exception that leaves it. [Continue]
    at the end says the loop is still running. *)
Fixpoint loop (miner_id : string) (interval : Z) (ws : list world)
  : M state control :=
  match ws with
  | [] => mret Continue
  | w :: ws' =>
      c ← iteration miner_id interval w;
      match c with
      | Continue => loop miner_id interval ws'
      | Break => mret Break
      end
  end.

Definition watch_miner (miner_id : string) (interval : Z)
    (ws : list world) : M state control :=
  print (Watching miner_id);;
  print (RefreshInterval interval);;
  assign initial;;
  loop miner_id interval ws.

(** The [for m in miners] loop that fills [by_arch]. *)
Fixpoint group_by_arch (miners : list json) (by_arch : list (json * Z))
  : result (list (json * Z)) :=
  match miners with
  | [] => Ok by_arch
  | m :: rest =>
      arch ← get m "device_arch" (JStr "unknown");
      if hashable arch
      then group_by_arch rest
             (Dict.set key_eqb by_arch arch
                (Dict.get key_eqb by_arch arch 0 + 1))
      else Raise TypeError
  end.

(** The [for arch, count in sorted(...)] loop. *)
Fixpoint print_distribution (items : list (json * Z)) : M unit unit :=
  match items with
  | [] => mret tt
  | (arch, count) :: rest =>
      a ← lift (format_width arch);
      print (DistributionLine a count);;
      print_distribution rest
  end.

Definition network_summary (w : world) : M unit unit :=
  health ← lift (get_health w);
  epoch ← lift (get_epoch w);
  miners ← lift (get_miners w);
  print BoxTop;;
  print SummaryTitle;;
  print BoxRule;;
  ok ← lift (get health "ok" (JBool false));
  print (NodeLine (truthy ok));;
  e ← lift (get epoch "current_epoch" (JStr "N/A"));
  e ← lift (format_width e);
  print (SummaryEpochLine e);;
  n ← lift (len miners);
  print (MinersLine n);;
  print BoxBottom;;
  ms ← lift (iter miners);
  by_arch ← lift (group_by_arch ms []);
  print DistributionHeader;;
  print_distribution (Dict.sorted (λ x, - x.2) by_arch).

End Monitor.

(** ** Reading the console *)

Module Observe.
Import Py Console Monitor.

(** What a computation printed, left in the variables, and returned. *)
Definition output {S A} (x : list event * S * result A) : list event :=
  x.1.1.
Definition final {S A} (x : list event * S * result A) : S := x.1.2.
Definition outcome {S A} (x : list event * S * result A) : result A :=
  x.2.

(** The rewards announced by the epoch alerts of an output. *)
Definition alerts (out : list event) : list num :=
  omap (λ e, match e with NewEpoch r => Some r | _ => None end) out.

(** The miner counts shown by the summary box. *)
Definition miner_counts (out : list event) : list Z :=
  omap (λ e, match e with MinersLine n => Some n | _ => None end) out.

(** The lines of the hardware distribution, in the order printed. *)
Definition distribution (out : list event) : list (json * Z) :=
  omap (λ e, match e with
             | DistributionLine a n => Some (a, n)
             | _ => None
             end) out.

(** Sum of the counts of a histogram. *)
Definition total (items : list (json * Z)) : Z :=
  foldr (λ item acc, item.2 + acc) 0 items.

(** A miner record whose architecture can serve as a dictionary key. *)
Definition countable_miner (m : json) : Prop :=
  ∃ d, m = JDict d
       ∧ hashable (default (JStr "unknown") (d !! "device_arch")) = true.

(** A value that a width-and-alignment format spec accepts. *)
Definition printable (v : json) : Prop := format_width v = Ok v.

(** A miner record whose architecture can be counted and printed. *)
Definition printable_miner (m : json) : Prop :=
  ∃ d, m = JDict d
       ∧ printable (default (JStr "unknown") (d !! "device_arch")).

(** A balance that [float] accepts, as every balance that went through
    the [.6f] field is. *)
Definition float_convertible (n : num) : Prop := is_Some (to_float n).

(** The states in which the loop can start an iteration. *)
Definition reachable (st : state) : Prop :=
  ∃ miner_id interval ws,
    final (loop miner_id interval ws initial) = st.

End Observe.

(** ** Sample runs *)

Module Samples.
Import Py Console Monitor.

Definition dict (items : list (string * json)) : json :=
  JDict (list_to_map items).

(** Three miners as the node lists them; the second carries both
    identifier keys, with different values. *)
Definition alice : json :=
  dict [ ("miner", JStr "alice"); ("device_arch", JStr "G4");
         ("last_attestation_time", JInt 1000) ].
Definition bob : json :=
  dict [ ("miner", JStr "bob"); ("miner_id", JStr "robert");
         ("device_arch", JStr "power8") ].
Definition carol : json :=
  dict [ ("miner_id", JStr "carol"); ("device_arch", JStr "G4") ].
Definition robert : json :=
  dict [ ("miner_id", JStr "robert") ].

(** A node that answers every request, at epoch [epoch] and with
    balance [balance]; time passes undisturbed. *)
Definition node (epoch : Z) (balance : float) : world :=
  {| health_response := Ok (dict [("ok", JBool true)]);
     epoch_response := Ok (dict [("current_epoch", JInt epoch)]);
     miners_response := Ok (JList [alice; bob; carol; robert]);
     balance_response := λ _, Ok (dict [("balance_rtc", JFloat balance)]);
     now := 2000%float;
     sleep_ending := Ok tt;
     handler_sleep_ending := Ok tt |}.

(** The same node when the miner list cannot be fetched. *)
Definition miners_down (epoch : Z) (balance : float) : world :=
  {| health_response := health_response (node epoch balance);
     epoch_response := epoch_response (node epoch balance);
     miners_response := Raise (Exception "ConnectionError");
     balance_response := balance_response (node epoch balance);
     now := 2000%float;
     sleep_ending := Ok tt;
     handler_sleep_ending := Ok tt |}.

(** A node that is down: every request fails to connect. *)
Definition down : world :=
  {| health_response := Raise (Exception "ConnectionError");
     epoch_response := Raise (Exception "ConnectionError");
     miners_response := Raise (Exception "ConnectionError");
     balance_response := λ _, Raise (Exception "ConnectionError");
     now := 2000%float;
     sleep_ending := Ok tt;
     handler_sleep_ending := Ok tt |}.


(** The operator presses Ctrl-C while the epoch is being fetched. *)
Definition interrupt_on_fetch : world :=
  {| health_response := Raise KeyboardInterrupt;
     epoch_response := Raise KeyboardInterrupt;
     miners_response := Raise KeyboardInterrupt;
     balance_response := λ _, Raise KeyboardInterrupt;
     now := 2000%float;
     sleep_ending := Ok tt;
     handler_sleep_ending := Ok tt |}.

End Samples.

(** ** The command line and the requests *)

Module Cli.
Import Py Console Monitor.

(** [s.rstrip(c)] for one character [c]: the trailing run of [c] goes. *)
Fixpoint rstrip (c : ascii) (s : string) : string :=
  match s with
  | EmptyString => EmptyString
  | String a s' =>
      match rstrip c s' with
      | EmptyString =>
          if Ascii.eqb a c then EmptyString else String a EmptyString
      | rest => String a rest
      end
  end.

(** [RustChainMonitor.__init__]: the base URL is kept without trailing
    slashes. The session it opens is the [http_get] of each round. *)
Record monitor : Type := { node_url : string }.

Definition new_monitor (url : string) : monitor :=
  {| node_url := rstrip "/" url |}.

(** The four URLs the client requests (lines 34, 39, 44 and 49); the
    miner id goes into the query string as it is. *)
Definition health_url (m : monitor) : string := node_url m +:+ "/health".
Definition epoch_url (m : monitor) : string := node_url m +:+ "/epoch".
Definition miners_url (m : monitor) : string :=
  node_url m +:+ "/api/miners".
Definition balance_url (m : monitor) (miner_id : string) : string :=
  node_url m +:+ "/wallet/balance?miner_id=" +:+ miner_id.

(** The outside world as the session meets it during one round of
    requests: what a GET of a URL gives once decoded, the clock, and how
    the two calls of [time.sleep] end. *)
Record round : Type := {
  http_get : string → result json;
  clock : float;
  sleep_end : result unit;
  handler_sleep_end : result unit
}.

(** The answers a monitor gets in a round. *)
Definition world_of (m : monitor) (r : round) : world :=
  {| health_response := http_get r (health_url m);
     epoch_response := http_get r (epoch_url m);
     miners_response := http_get r (miners_url m);
     balance_response := λ miner_id, http_get r (balance_url m miner_id);
     now := clock r;
     sleep_ending := sleep_end r;
     handler_sleep_ending := handler_sleep_end r |}.

(** The namespace [parse_args] returns; [--miner] is [None] when absent. *)
Record args : Type := {
  node : string;
  miner : option string;
  watch : bool;
  interval : Z
}.

(** The defaults of the four flags. *)
Definition default_args : args :=
  {| node := "https://50.28.86.131"; miner := None; watch := false;
     interval := 60 |}.

(** Truth value of [args.miner]: [None] and the empty string are false. *)
Definition given (miner : option string) : bool :=
  match miner with
  | Some id => negb (String.eqb id "")
  | None => false
  end.

(** What [main] prints: the lines of the monitor, and the two lines of
    the single balance query. *)
Inductive line : Type :=
| Shown (e : event)
| MinerReport (miner_id : string)
| BalanceReport (balance : num).

(** How a run of [main] stands when the rounds given to it are used up. *)
Inductive progress : Type := Finished | StillWatching.

(** Lines 174-176: the balance is fetched, then the two lines are
    printed, the second through [.6f]. *)
Definition report_balance (w : world) (miner_id : string)
  : list line * result progress :=
  match get_miner_balance w miner_id with
  | Ok balance =>
      match format_balance balance with
      | Ok b => ([MinerReport miner_id; BalanceReport b], Ok Finished)
      | Raise e => ([MinerReport miner_id], Raise e)
      end
  | Raise e => ([], Raise e)
  end.

(** [main] after [parse_args], against the round [r] and, in watch mode,
    the rounds [rs] of the later iterations. *)
Definition main (a : args) (r : round) (rs : list round)
  : list line * result progress :=
  let monitor := new_monitor (node a) in
  if given (miner a) && watch a then
    let '(out, _, res) :=
      watch_miner (default "" (miner a)) (interval a)
        (world_of monitor <$> r :: rs) initial in
    (Shown <$> out,
     match res with
     | Ok Break => Ok Finished
     | Ok Continue => Ok StillWatching
     | Raise e => Raise e
     end)
  else if given (miner a) then
    report_balance (world_of monitor r) (default "" (miner a))
  else
    let '(out, _, res) := network_summary (world_of monitor r) tt in
    (Shown <$> out,
     match res with
     | Ok _ => Ok Finished
     | Raise e => Raise e
     end).

End Cli.

(** ** More readings of the console *)

Module Measure.
Import Py Console Monitor.

(** The string made of [n] copies of a character. *)
Fixpoint run_of (c : ascii) (n : nat) : string :=
  match n with
  | O => EmptyString
  | S n' => String c (run_of c n')
  end.

(** The lengths of the calls of [time.sleep] that started to wait. *)
Definition sleeps (out : list event) : list Z :=
  omap (λ e, match e with Sleep i => Some i | _ => None end) out.

(** The events lines 81-122 can print: the lines of the snapshot box and
    the epoch alert. *)
Definition snapshot_event (e : event) : bool :=
  match e with
  | ClearScreen | BoxTop | Title | BoxRule | MinerIdLine _ | BalanceLine _
  | EpochLine _ | HardwareLine _ | ExpectedLine _ | StatusLine _
  | NotFoundLine | BoxBottom | NewEpoch _ => true
  | _ => false
  end.

(** Whether an event is the farewell message. *)
Definition is_farewell (e : event) : bool :=
  match e with Farewell => true | _ => false end.

(** Whether a miner record counts for the architecture [arch]: its
    "device_arch" is that string, or is missing when [arch] is
    "unknown". *)
Definition has_arch (arch : string) (m : json) : bool :=
  match get m "device_arch" (JStr "unknown") with
  | Ok v => eq_str v arch
  | Raise _ => false
  end.

(** No key of a histogram equals a later one. *)
Definition distinct_keys (d : list (json * Z)) : Prop :=
  StronglySorted (λ x y, key_eqb x.1 y.1 = false) d.

(** The number of records of a list that count for [arch]. *)
Definition count_arch (arch : string) (miners : list json) : Z :=
  Z.of_nat (length (filter (λ m, has_arch arch m = true) miners)).

End Measure.

(** ** Sample rounds *)

Module Scenes.
Import Py Console Monitor Cli.

(** A node reachable at [base]: it answers the four paths of the API
    and nothing else. *)
Definition answers (base : string) (epoch : Z) (balance : float)
    (miners : list json) (url : string) : result json :=
  if String.eqb url (base +:+ "/health")
  then Ok (Samples.dict [("ok", JBool true)])
  else if String.eqb url (base +:+ "/epoch")
  then Ok (Samples.dict [("current_epoch", JInt epoch)])
  else if String.eqb url (base +:+ "/api/miners")
  then Ok (JList miners)
  else if String.prefix (base +:+ "/wallet/balance?miner_id=") url
  then Ok (Samples.dict [("balance_rtc", JFloat balance)])
  else Raise (Exception "JSONDecodeError").

(** A round in which that node answers and nothing disturbs the sleep. *)
Definition calm (epoch : Z) (balance : float) : round :=
  {| http_get :=
       answers "http://node" epoch balance
         [Samples.alice; Samples.bob; Samples.carol; Samples.robert];
     clock := 2000%float;
     sleep_end := Ok tt;
     handler_sleep_end := Ok tt |}.

(** A round in which no request gets through. *)
Definition offline : round :=
  {| http_get := λ _, Raise (Exception "ConnectionError");
     clock := 2000%float;
     sleep_end := Ok tt;
     handler_sleep_end := Ok tt |}.

End Scenes.

(** ** Sample answers with integers and NaN *)

Module Corner.
Import Py Console Monitor.

(** The sample node when it states the balance as an integer. *)
Definition ledger (epoch balance : Z) : world :=
  {| health_response := health_response (Samples.node epoch 0);
     epoch_response := epoch_response (Samples.node epoch 0);
     miners_response := miners_response (Samples.node epoch 0);
     balance_response :=
       λ _, Ok (Samples.dict [("balance_rtc", JInt balance)]);
     now := 2000%float;
     sleep_ending := Ok tt;
     handler_sleep_ending := Ok tt |}.

(** A miner record whose architecture is the [NaN] of the JSON text. *)
Definition nameless : json :=
  Samples.dict [("miner", JStr "nameless"); ("device_arch", JFloat nan)].

End Corner.

(** * Properties *)

(** ** Letter case *)

Section letter_case.
Import PyStr.

Lemma lower_char_idempotent (c : ascii) :
  lower_char (lower_char c) = lower_char c.
Proof. by destruct c as [[] [] [] [] [] [] [] []]. Qed.

Lemma lower_idempotent (s : string) : lower (lower s) = lower s.
Proof.
  induction s as [|c s IH]; simpl; [done|].
  by rewrite lower_char_idempotent, IH.
Qed.

(** The character-wise comparison is equality of the lowercase forms. *)
Lemma equal_ignoring_case_spec (s t : string) :
  equal_ignoring_case s t = true ↔ lower s = lower t.
Proof.
  revert t. induction s as [|a s IH]; intros [|b t]; simpl; try done.
  unfold same_char_ignoring_case.
  rewrite andb_true_iff, bool_decide_eq_true, IH.
  split; [intros [-> ->]; done | intros [= -> ->]; done].
Qed.

Lemma equal_ignoring_case_lower (s : string) :
  equal_ignoring_case s (lower s) = true.
Proof. apply equal_ignoring_case_spec. by rewrite lower_idempotent. Qed.
End letter_case.

(** ** The reward estimator *)

Section reward.
Import PyStr Reward.

Lemma multipliers_items_NoDup : NoDup multipliers_items.*1.
Proof. apply (bool_decide_unpack _). by vm_compute. Qed.

Lemma multipliers_lookup (key : string) (m : float) :
  multipliers !! key = Some m ↔ (key, m) ∈ multipliers_items.
Proof.
  unfold multipliers. symmetry.
  apply elem_of_list_to_map, multipliers_items_NoDup.
Qed.

(** The keys of the table are written in lowercase. *)
Lemma multipliers_keys_lower (key : string) (m : float) :
  (key, m) ∈ multipliers_items → lower key = key.
Proof.
  unfold multipliers_items. rewrite !elem_of_cons, elem_of_nil.
  intros H. repeat destruct H as [H|H]; try done; by injection H as -> _.
Qed.

(** The multiplier is a value of the table or the default. *)
Lemma multiplier_cases (device_arch : string) :
  multiplier device_arch
    ∈ [2.5; 2.0; 1.8; 1.5; 1.4; 1.2; 1.0]%float.
Proof.
  unfold multiplier.
  destruct (multipliers !! lower device_arch) as [m|] eqn:E; simpl.
  - apply multipliers_lookup in E. revert E. unfold multipliers_items.
    rewrite !elem_of_cons, elem_of_nil.
    intros E. repeat destruct E as [E|E]; try done;
      injection E as _ ->; set_solver.
  - set_solver.
Qed.

Lemma multiplier_of_key (device_arch key : string) (m : float) :
  (key, m) ∈ multipliers_items →
  equal_ignoring_case device_arch key = true →
  multiplier device_arch = m.
Proof.
  intros Hin Heq. apply equal_ignoring_case_spec in Heq.
  rewrite (multipliers_keys_lower _ _ Hin) in Heq.
  unfold multiplier. rewrite Heq.
  apply multipliers_lookup in Hin. by rewrite Hin.
Qed.

(** C2. The multiplier of [calculate_expected_reward] comes from a table
    of exactly the seven entries g4 2.5, g5 2.0, g3 1.8, power8 1.5,
    retro 1.4, apple_silicon 1.2, modern 1.0; an architecture that equals
    a key up to letter case gets that key's multiplier; the multiplier
    does not change when the architecture is replaced by its lowercase
    form; it is 1.0 when the lowercase form is not a key; and "G4" and
    "g4" both give 2.5 while "xyz" gives 1.0. *)
Theorem multiplier_case_insensitive_lookup (device_arch : string) :
  map_to_list multipliers ≡ₚ
    [ ("g4", 2.5); ("g5", 2.0); ("g3", 1.8); ("power8", 1.5);
      ("retro", 1.4); ("apple_silicon", 1.2); ("modern", 1.0) ]%float
  ∧ size multipliers = 7%nat
  ∧ (∀ key m, multipliers !! key = Some m →
       equal_ignoring_case device_arch key = true →
       multiplier device_arch = m)
  ∧ multiplier (lower device_arch) = multiplier device_arch
  ∧ (multipliers !! lower device_arch = None →
       multiplier device_arch = 1.0%float)
  ∧ multiplier "G4" = 2.5%float
  ∧ multiplier "g4" = 2.5%float
  ∧ multiplier "xyz" = 1.0%float.
Proof.
  split_and!.
  - apply map_to_list_to_map, multipliers_items_NoDup.
  - apply (bool_decide_unpack _). by vm_compute.
  - intros key m Hkey. apply multipliers_lookup in Hkey.
    by apply multiplier_of_key.
  - unfold multiplier. by rewrite lower_idempotent.
  - unfold multiplier. by intros ->.
  - by vm_compute.
  - by vm_compute.
  - by vm_compute.
Qed.

(** A use of C2: "Power8" is the key "power8" up to case, so its
    multiplier is 1.5. *)
Lemma multiplier_case_insensitive_lookup_witness :
  multiplier "Power8" = 1.5%float.
Proof.
  destruct (multiplier_case_insensitive_lookup "Power8")
    as (_ & _ & H & _).
  apply (H "power8"); by vm_compute.
Defined.

(** C3. The expected reward is the base reward 1.5 times the multiplier
    of the architecture (binary64 product): for every string, for every
    entry of the table in particular, and 3.75 for "g4". *)
Theorem expected_reward_is_base_times_multiplier (device_arch : string) :
  calculate_expected_reward device_arch
    = (1.5 * multiplier device_arch)%float
  ∧ (∀ key m, multipliers !! key = Some m →
       calculate_expected_reward key = (1.5 * m)%float)
  ∧ calculate_expected_reward "g4" = 3.75%float.
Proof.
  split_and!.
  - done.
  - intros key m Hkey. unfold calculate_expected_reward, base_reward.
    f_equal. apply multipliers_lookup in Hkey.
    apply (multiplier_of_key key key m Hkey).
    apply equal_ignoring_case_spec. done.
  - by vm_compute.
Qed.

(** A use of C3 on the entry "retro". *)
Lemma expected_reward_is_base_times_multiplier_witness :
  calculate_expected_reward "retro" = (1.5 * 1.4)%float.
Proof.
  destruct (expected_reward_is_base_times_multiplier "retro")
    as (_ & H & _).
  apply H. by vm_compute.
Defined.

(** C10. The expected reward lies between 1.5 and 3.75 for every
    architecture; 1.5 is reached by "modern" and by an unknown
    architecture, 3.75 by "g4"; every multiplier lies in [1.0, 2.5]. *)
Theorem expected_reward_bounds (device_arch : string) :
  (1.5 <=? calculate_expected_reward device_arch)%float = true
  ∧ (calculate_expected_reward device_arch <=? 3.75)%float = true
  ∧ (1.0 <=? multiplier device_arch)%float = true
  ∧ (multiplier device_arch <=? 2.5)%float = true
  ∧ calculate_expected_reward "modern" = 1.5%float
  ∧ calculate_expected_reward "unknown" = 1.5%float
  ∧ calculate_expected_reward "g4" = 3.75%float.
Proof.
  unfold calculate_expected_reward, base_reward.
  pose proof (multiplier_cases device_arch) as H.
  rewrite !elem_of_cons, elem_of_nil in H.
  split_and!; try by vm_compute.
  all: repeat destruct H as [H|H]; try done; rewrite H; by vm_compute.
Qed.
End reward.

(** ** Dictionaries in insertion order, and sorting *)

Section dict.
Import Py Observe.

Lemma total_cons (item : json * Z) (items : list (json * Z)) :
  total (item :: items) = item.2 + total items.
Proof. done. Qed.

(** Counting one more occurrence of a key adds one to the total, whether
    the key is new or not. *)
Lemma total_count_one (by_arch : list (json * Z)) (arch : json) :
  total (Dict.set key_eqb by_arch arch
           (Dict.get key_eqb by_arch arch 0 + 1))
  = total by_arch + 1.
Proof.
  induction by_arch as [|[k n] d IH]; cbn [Dict.set Dict.get]; [done|].
  destruct (key_eqb k arch); rewrite !total_cons; simpl; lia.
Qed.
End dict.

Section sorting.
Context {A : Type} (key : A → Z).

Lemma insert_sorted_perm (x : A) (l : list A) :
  Dict.insert_sorted key x l ≡ₚ x :: l.
Proof.
  induction l as [|y l IH]; simpl; [done|].
  destruct (key x <=? key y); [done|].
  rewrite IH. apply Permutation_swap.
Qed.

Lemma sorted_perm (l : list A) : Dict.sorted key l ≡ₚ l.
Proof.
  induction l as [|x l IH]; simpl; [done|].
  by rewrite insert_sorted_perm, IH.
Qed.

Let le_key (a b : A) : Prop := key a ≤ key b.

Lemma insert_sorted_ordered (x : A) (l : list A) :
  StronglySorted le_key l →
  StronglySorted le_key (Dict.insert_sorted key x l).
Proof.
  induction 1 as [|y l Hl IH Hy]; simpl.
  - repeat constructor.
  - destruct (Z.leb_spec (key x) (key y)) as [Hle|Hgt].
    + constructor; [by constructor|].
      constructor; [done|].
      eapply Forall_impl; [exact Hy|]. unfold le_key. simpl. lia.
    + constructor; [done|].
      rewrite insert_sorted_perm. constructor; [|done].
      unfold le_key. lia.
Qed.

Lemma sorted_ordered (l : list A) :
  StronglySorted le_key (Dict.sorted key l).
Proof.
  induction l as [|x l IH]; simpl; [constructor|].
  by apply insert_sorted_ordered.
Qed.

(** Stability: items with the same key keep their relative order. *)
Lemma insert_sorted_stable (c : Z) (x : A) (l : list A) :
  filter (λ a, key a = c) (Dict.insert_sorted key x l)
  = filter (λ a, key a = c) (x :: l).
Proof.
  induction l as [|y l IH]; simpl; [done|].
  destruct (Z.leb_spec (key x) (key y)) as [Hle|Hgt]; [done|].
  rewrite (filter_cons _ y), IH, !filter_cons.
  repeat case_decide; try done; lia.
Qed.

Lemma sorted_stable (c : Z) (l : list A) :
  filter (λ a, key a = c) (Dict.sorted key l) = filter (λ a, key a = c) l.
Proof.
  induction l as [|x l IH]; simpl; [done|].
  rewrite insert_sorted_stable, !filter_cons, IH. done.
Qed.
End sorting.

(** ** Running a computation *)

Section run.
Import Py Console Monitor Observe.
Context {S : Type}.

Lemma output_bind {A B} (m : M S A) (f : A → M S B) (st : S) :
  output ((m ≫= f) st)
  = match outcome (m st) with
    | Ok a => output (m st) ++ output (f a (final (m st)))
    | Raise _ => output (m st)
    end.
Proof.
  unfold output, outcome, final, mbind, M_bind.
  destruct (m st) as [[out st'] [a|e]]; simpl; [|done].
  by destruct (f a st') as [[out' st''] r].
Qed.

Lemma outcome_bind {A B} (m : M S A) (f : A → M S B) (st : S) :
  outcome ((m ≫= f) st)
  = match outcome (m st) with
    | Ok a => outcome (f a (final (m st)))
    | Raise e => Raise e
    end.
Proof.
  unfold output, outcome, final, mbind, M_bind.
  destruct (m st) as [[out st'] [a|e]]; simpl; [|done].
  by destruct (f a st') as [[out' st''] r].
Qed.

Lemma final_bind {A B} (m : M S A) (f : A → M S B) (st : S) :
  final ((m ≫= f) st)
  = match outcome (m st) with
    | Ok a => final (f a (final (m st)))
    | Raise _ => final (m st)
    end.
Proof.
  unfold output, outcome, final, mbind, M_bind.
  destruct (m st) as [[out st'] [a|e]]; simpl; [|done].
  by destruct (f a st') as [[out' st''] r].
Qed.

Lemma output_lift {A} (r : result A) (st : S) : output (lift r st) = [].
Proof. done. Qed.
Lemma outcome_lift {A} (r : result A) (st : S) : outcome (lift r st) = r.
Proof. done. Qed.
Lemma final_lift {A} (r : result A) (st : S) : final (lift r st) = st.
Proof. done. Qed.

Lemma output_print (e : event) (st : S) : output (print e st) = [e].
Proof. done. Qed.
Lemma outcome_print (e : event) (st : S) : outcome (print e st) = Ok tt.
Proof. done. Qed.
Lemma final_print (e : event) (st : S) : final (print e st) = st.
Proof. done. Qed.

Lemma output_ret {A} (a : A) (st : S) : output ((mret a : M S A) st) = [].
Proof. done. Qed.
Lemma outcome_ret {A} (a : A) (st : S) : outcome ((mret a : M S A) st) = Ok a.
Proof. done. Qed.
Lemma final_ret {A} (a : A) (st : S) : final ((mret a : M S A) st) = st.
Proof. done. Qed.
Lemma output_read (st : S) : output (read st) = [].
Proof. done. Qed.
Lemma outcome_read (st : S) : outcome (read st) = Ok st.
Proof. done. Qed.
Lemma final_read (st : S) : final (read st) = st.
Proof. done. Qed.

Lemma output_assign (new st : S) : output (assign new st) = [].
Proof. done. Qed.
Lemma outcome_assign (new st : S) : outcome (assign new st) = Ok tt.
Proof. done. Qed.
Lemma final_assign (new st : S) : final (assign new st) = new.
Proof. done. Qed.

Lemma output_raise {A} (e : exn) (st : S) : output (raise (A:=A) e st) = [].
Proof. done. Qed.
Lemma outcome_raise {A} (e : exn) (st : S) :
  outcome (raise (A:=A) e st) = Raise e.
Proof. done. Qed.
Lemma final_raise {A} (e : exn) (st : S) : final (raise (A:=A) e st) = st.
Proof. done. Qed.

(** A call of [time.sleep]: what it prints, leaves and returns. *)
Lemma output_sleep (interval : Z) (ending : result unit) (st : S) :
  output (sleep interval ending st)
  = match sleep_refusal interval with
    | Some _ => []
    | None => [Sleep interval]
    end.
Proof. unfold sleep. by destruct (sleep_refusal interval). Qed.
Lemma outcome_sleep (interval : Z) (ending : result unit) (st : S) :
  outcome (sleep interval ending st)
  = match sleep_refusal interval with
    | Some e => Raise e
    | None => ending
    end.
Proof. unfold sleep. by destruct (sleep_refusal interval). Qed.
Lemma final_sleep (interval : Z) (ending : result unit) (st : S) :
  final (sleep interval ending st) = st.
Proof. unfold sleep. by destruct (sleep_refusal interval). Qed.
End run.

Create Rewrite HintDb run.
#[global] Hint Rewrite @output_bind @outcome_bind @final_bind
  @output_lift @outcome_lift @final_lift
  @output_print @outcome_print @final_print
  @output_ret @outcome_ret @final_ret
  @output_read @outcome_read @final_read
  @output_assign @outcome_assign @final_assign
  @output_raise @outcome_raise @final_raise
  @output_sleep @outcome_sleep @final_sleep : run.


(** ** Tactics for the effect monad *)

(** Unfolds the operations of the effect monad. *)
Ltac unfold_M :=
  unfold mbind, Console.M_bind, Monitor.result_bind, mret, Console.M_ret,
    Monitor.result_ret, Console.lift, Console.print, Console.raise,
    Console.read, Console.assign, Observe.output, Observe.outcome,
    Observe.final in *.

(** Splits on the next result a computation branches on. *)
Ltac split_M :=
  match goal with
  | |- context [match ?r with Py.Ok _ => _ | Py.Raise _ => _ end] =>
      destruct r eqn:?
  end.

(** Rewrites with the equations of the monad as far as they go. *)
Ltac simp_M := repeat (progress (autorewrite with run; simpl)).

(** Runs a computation symbolically, one branch per way it can end. *)
Ltac run_M := repeat (autorewrite with run; simpl; try split_M).

(** ** The network summary *)

Section summary.
Import Py Console Monitor Observe.

Lemma group_by_arch_total (miners : list json) :
  ∀ acc by_arch,
    group_by_arch miners acc = Ok by_arch →
    total by_arch = total acc + Z.of_nat (length miners).
Proof.
  induction miners as [|m rest IH]; intros acc by_arch; simpl.
  - intros [= ->]. lia.
  - unfold mbind, result_bind.
    destruct (get m "device_arch" (JStr "unknown")) as [arch|]; [|done].
    destruct (hashable arch); [|done].
    intros H. apply IH in H. rewrite total_count_one in H. lia.
Qed.

Lemma group_by_arch_completes (miners : list json) :
  Forall countable_miner miners →
  ∀ acc, ∃ by_arch, group_by_arch miners acc = Ok by_arch.
Proof.
  induction 1 as [|m rest (d & -> & Hd) _ IH]; intros acc; simpl.
  - by eexists.
  - unfold mbind, result_bind. simpl. rewrite Hd. apply IH.
Qed.

(** The lines printed by the distribution loop are the items it was
    given, up to the first one whose key cannot be formatted. *)
Lemma print_distribution_lines (items : list (json * Z)) :
  distribution (output (print_distribution items tt)) `prefix_of` items
  ∧ (outcome (print_distribution items tt) = Ok tt →
     distribution (output (print_distribution items tt)) = items)
  ∧ miner_counts (output (print_distribution items tt)) = [].
Proof.
  induction items as [|[arch n] items (IH1 & IH2 & IH3)]; simpl.
  - split_and!; done || apply prefix_nil.
  - unfold_M. simpl.
    destruct (format_width arch) as [a|e] eqn:Ha; simpl.
    + assert (a = arch) as -> by (by destruct arch; simplify_eq/=).
      destruct (print_distribution items tt) as [[out st] r]; simpl in *.
      split_and!; [by apply prefix_cons | intros; f_equal; auto | done].
    + split_and!; [apply prefix_nil | done | done].
Qed.

Lemma print_distribution_completes (items : list (json * Z)) :
  Forall (λ item, printable item.1) items →
  outcome (print_distribution items tt) = Ok tt.
Proof.
  induction 1 as [|[arch n] items Harch _ IH]; simpl; [done|].
  autorewrite with run. simpl in Harch. rewrite Harch.
  by autorewrite with run.
Qed.

Lemma total_perm (l1 l2 : list (json * Z)) :
  l1 ≡ₚ l2 → total l1 = total l2.
Proof. induction 1; rewrite ?total_cons in *; simpl; lia. Qed.

Lemma printable_hashable (v : json) : printable v → hashable v = true.
Proof. by destruct v. Qed.

Lemma set_keys (P : json → Prop) (d : list (json * Z)) k v :
  Forall (λ item, P item.1) d → P k →
  Forall (λ item, P item.1) (Dict.set key_eqb d k v).
Proof.
  induction 1 as [|[k' v'] d Hk' Hd IH]; intros Hk; simpl.
  - by repeat constructor.
  - destruct (key_eqb k' k); constructor; auto.
Qed.

(** On printable miner records the grouping completes, and every key of
    the histogram is printable. *)
Lemma group_by_arch_printable (miners : list json) :
  Forall printable_miner miners →
  ∀ acc, Forall (λ item, printable item.1) acc →
    ∃ by_arch, group_by_arch miners acc = Ok by_arch
               ∧ Forall (λ item, printable item.1) by_arch.
Proof.
  induction 1 as [|m rest (d & -> & Hd) _ IH]; intros acc Hacc; simpl.
  - by eexists.
  - unfold mbind, result_bind. simpl.
    rewrite (printable_hashable _ Hd). apply IH. by apply set_keys.
Qed.

Lemma StronglySorted_weaken {A} (R R' : A → A → Prop) (l : list A) :
  (∀ a b, R a b → R' a b) → StronglySorted R l → StronglySorted R' l.
Proof.
  intros HR. induction 1 as [|x l _ IH Hx]; constructor; [done|].
  eapply Forall_impl; [exact Hx|]. auto.
Qed.

Lemma sorted_by_count (by_arch : list (json * Z)) :
  StronglySorted (λ a b, b.2 ≤ a.2) (Dict.sorted (λ x, - x.2) by_arch).
Proof.
  eapply StronglySorted_weaken; [|apply sorted_ordered].
  simpl. intros a b. lia.
Qed.

(** What a summary over a miner list prints after the box when it runs
    to the end: the groups of [by_arch], sorted. *)
Lemma network_summary_distribution (w : world) (miners : list json) :
  miners_response w = Ok (JList miners) →
  outcome (network_summary w tt) = Ok tt →
  ∃ by_arch,
    group_by_arch miners [] = Ok by_arch
    ∧ distribution (output (network_summary w tt))
      = Dict.sorted (λ x, - x.2) by_arch.
Proof.
  intros Hm. unfold network_summary, get_health, get_epoch, get_miners.
  rewrite Hm. run_M; try done.
  intros Hok. eexists; split; [done|].
  by apply print_distribution_lines.
Qed.

(** The lines of the distribution are sorted however the summary ends. *)
Lemma network_summary_sorted (w : world) :
  StronglySorted (λ a b, b.2 ≤ a.2)
    (distribution (output (network_summary w tt))).
Proof.
  unfold network_summary. run_M; try by constructor.
  match goal with
  | |- context [print_distribution ?items tt] =>
      destruct (print_distribution_lines items) as ([rest Hpre] & _)
  end.
  eapply StronglySorted_app_1_l. rewrite <- Hpre. apply sorted_by_count.
Qed.

Lemma network_summary_miner_counts (w : world) (miners : list json) :
  miners_response w = Ok (JList miners) →
  miner_counts (output (network_summary w tt))
    `prefix_of` [Z.of_nat (length miners)]
  ∧ (outcome (network_summary w tt) = Ok tt →
     miner_counts (output (network_summary w tt))
     = [Z.of_nat (length miners)]).
Proof.
  intros Hm. unfold network_summary, get_health, get_epoch, get_miners.
  rewrite Hm. run_M; try (split; [apply prefix_nil || done | done]).
  match goal with
  | |- context [print_distribution ?items tt] =>
      destruct (print_distribution_lines items) as (_ & _ & ->)
  end.
  done.
Qed.

Lemma network_summary_completes (w : world) h e (miners : list json) :
  health_response w = Ok (JDict h) →
  epoch_response w = Ok (JDict e) →
  printable (default (JStr "N/A") (e !! "current_epoch")) →
  miners_response w = Ok (JList miners) →
  Forall printable_miner miners →
  outcome (network_summary w tt) = Ok tt.
Proof.
  intros Hh He Hepoch Hm Hminers.
  destruct (group_by_arch_printable miners Hminers [])
    as (by_arch & Hgroup & Hkeys); [constructor|].
  unfold network_summary, get_health, get_epoch, get_miners.
  rewrite Hh, He, Hm. simp_M.
  rewrite Hepoch. simp_M.
  rewrite Hgroup. simp_M.
  apply print_distribution_completes.
  by rewrite sorted_perm.
Qed.

(** C7. For a fetched miner list, the only miner count the summary
    prints is the length of the list; the counts of the histogram
    [by_arch] built from the list sum to that length; a summary that
    runs to its end prints that count once and distribution lines whose
    counts sum to it; and the summary does run to its end when the node
    answers with objects and every architecture is printable. *)
Theorem summary_count_and_histogram_total
    (w : world) (miners : list json) :
  miners_response w = Ok (JList miners) →
  (∀ n, n ∈ miner_counts (output (network_summary w tt)) →
        n = Z.of_nat (length miners))
  ∧ (∀ by_arch, group_by_arch miners [] = Ok by_arch →
        total by_arch = Z.of_nat (length miners))
  ∧ (outcome (network_summary w tt) = Ok tt →
       miner_counts (output (network_summary w tt))
         = [Z.of_nat (length miners)]
       ∧ total (distribution (output (network_summary w tt)))
         = Z.of_nat (length miners))
  ∧ (∀ h e,
       health_response w = Ok (JDict h) →
       epoch_response w = Ok (JDict e) →
       printable (default (JStr "N/A") (e !! "current_epoch")) →
       Forall printable_miner miners →
       outcome (network_summary w tt) = Ok tt).
Proof.
  intros Hm.
  destruct (network_summary_miner_counts w miners Hm) as [[k Hpre] Hcount].
  split_and!.
  - intros n.
    destruct (miner_counts (output (network_summary w tt)))
      as [|n' [|]]; simplify_eq/=; set_solver.
  - intros by_arch H. apply group_by_arch_total in H. by rewrite H.
  - intros Hok. split; [auto|].
    destruct (network_summary_distribution w miners Hm Hok)
      as (by_arch & Hgroup & ->).
    rewrite (total_perm _ _ (sorted_perm _ by_arch)).
    apply group_by_arch_total in Hgroup. by rewrite Hgroup.
  - intros h e Hh He Hepoch Hminers.
    by eapply network_summary_completes.
Qed.

(** A use of C7: the sample node lists four miners. *)
Lemma summary_count_and_histogram_total_witness :
  miner_counts (output (network_summary (Samples.node 7 2.5) tt)) = [4]
  ∧ total (distribution (output (network_summary (Samples.node 7 2.5) tt)))
    = 4.
Proof.
  destruct (summary_count_and_histogram_total (Samples.node 7 2.5)
              [Samples.alice; Samples.bob; Samples.carol; Samples.robert]
              eq_refl) as (_ & _ & H & _).
  apply H. vm_compute. reflexivity.
Defined.

(** C8. For a fetched miner list, the distribution lines the summary
    prints are in non-increasing order of count; when the summary runs to
    its end they are the groups of [by_arch], each once, and groups with
    the same count follow one another as in [by_arch], that is, in the
    order in which the grouping met their architectures. *)
Theorem summary_distribution_order (w : world) (miners : list json) :
  miners_response w = Ok (JList miners) →
  StronglySorted (λ a b, b.2 ≤ a.2)
    (distribution (output (network_summary w tt)))
  ∧ (outcome (network_summary w tt) = Ok tt →
     ∃ by_arch,
       group_by_arch miners [] = Ok by_arch
       ∧ distribution (output (network_summary w tt)) ≡ₚ by_arch
       ∧ ∀ c, filter (λ g, g.2 = c)
                (distribution (output (network_summary w tt)))
              = filter (λ g, g.2 = c) by_arch).
Proof.
  intros Hm. split; [apply network_summary_sorted|].
  intros Hok.
  destruct (network_summary_distribution w miners Hm Hok)
    as (by_arch & Hgroup & ->).
  exists by_arch. split_and!; [done | apply sorted_perm |].
  intros c.
  rewrite (list_filter_iff (λ g, g.2 = c) (λ g, - g.2 = - c))
    by (intros g; lia).
  rewrite (list_filter_iff (λ g, g.2 = c) (λ g, - g.2 = - c) by_arch)
    by (intros g; lia).
  apply (sorted_stable (λ x : json * Z, - x.2)).
Qed.

(** A use of C8: on the sample node the two G4 miners come first. *)
Lemma summary_distribution_order_witness :
  StronglySorted (λ a b, b.2 ≤ a.2)
    (distribution (output (network_summary (Samples.node 7 2.5) tt)))
  ∧ distribution (output (network_summary (Samples.node 7 2.5) tt))
    = [(JStr "G4", 2); (JStr "power8", 1); (JStr "unknown", 1)].
Proof.
  split; [|by vm_compute].
  apply (summary_distribution_order (Samples.node 7 2.5)
           [Samples.alice; Samples.bob; Samples.carol; Samples.robert]
           eq_refl).
Defined.
End summary.

(** ** The miner lookup *)

Section lookup.
Import Py Console Monitor Observe.

(** What the test of the loop computes on a record. *)
Lemma is_our_miner_dict (d : gmap string json) (miner_id : string) :
  is_our_miner (JDict d) miner_id
  = Ok (eq_str (default JNull (d !! "miner")) miner_id
        || eq_str (default JNull (d !! "miner_id")) miner_id).
Proof.
  unfold is_our_miner, mbind, result_bind. simpl.
  by destruct (eq_str (default JNull (d !! "miner")) miner_id).
Qed.

Lemma eq_str_spec (v : json) (s : string) :
  eq_str v s = true ↔ v = JStr s.
Proof.
  destruct v; simpl; try done.
  rewrite String.eqb_eq. naive_solver.
Qed.

Lemma key_is (d : gmap string json) (key s : string) :
  default JNull (d !! key) = JStr s ↔ d !! key = Some (JStr s).
Proof. destruct (d !! key); naive_solver. Qed.

(** A record matches exactly when one of its two keys holds the id. *)
Lemma is_our_miner_spec (m : json) (miner_id : string) :
  is_our_miner m miner_id = Ok true
  ↔ ∃ d, m = JDict d
         ∧ (d !! "miner" = Some (JStr miner_id)
            ∨ d !! "miner_id" = Some (JStr miner_id)).
Proof.
  split.
  - destruct m; try done. rewrite is_our_miner_dict.
    intros [= H]. apply orb_true_iff in H.
    rewrite !eq_str_spec, !key_is in H. eauto.
  - intros (d & -> & H). rewrite is_our_miner_dict. f_equal.
    apply orb_true_iff. by rewrite !eq_str_spec, !key_is.
Qed.

(** The search returns a record exactly when it is the first one that
    matches, all records before it being objects that do not. *)
Lemma find_miner_some (miners : list json) (miner_id : string) (m : json) :
  find_miner miners miner_id = Ok (Some m)
  ↔ ∃ before after,
      miners = before ++ m :: after
      ∧ Forall (λ x, is_our_miner x miner_id = Ok false) before
      ∧ is_our_miner m miner_id = Ok true.
Proof.
  induction miners as [|x rest IH]; simpl.
  - split; [done|]. intros ([|??] & ? & ? & _); done.
  - unfold mbind, result_bind.
    destruct (is_our_miner x miner_id) as [[]|e] eqn:Hx.
    + split.
      * intros [= ->]. by exists [], rest.
      * intros ([|y before] & after & Heq & Hbefore & Hm);
          simplify_eq/=; [done|].
        apply Forall_cons in Hbefore as [Hy _]. congruence.
    + rewrite IH. split.
      * intros (before & after & -> & Hbefore & Hm).
        exists (x :: before), after. by repeat constructor.
      * intros ([|y before] & after & Heq & Hbefore & Hm);
          simplify_eq/=; [congruence|].
        apply Forall_cons in Hbefore as [_ Hbefore]. eauto.
    + split; [done|].
      intros ([|y before] & after & Heq & Hbefore & Hm);
        simplify_eq/=; [congruence|].
      apply Forall_cons in Hbefore as [Hy _]. congruence.
Qed.

Lemma find_miner_none (miners : list json) (miner_id : string) :
  find_miner miners miner_id = Ok None
  ↔ Forall (λ x, is_our_miner x miner_id = Ok false) miners.
Proof.
  induction miners as [|x rest IH]; simpl.
  - split; [constructor | done].
  - unfold mbind, result_bind. rewrite Forall_cons.
    destruct (is_our_miner x miner_id) as [[]|e] eqn:Hx.
    + split; [done | intros [? _]; done].
    + rewrite IH. naive_solver.
    + split; [done | intros [? _]; done].
Qed.

(** On a list of objects the search always returns. *)
Lemma find_miner_total (miners : list json) (miner_id : string) :
  Forall (λ m, ∃ d, m = JDict d) miners →
  ∃ r, find_miner miners miner_id = Ok r.
Proof.
  induction 1 as [|m rest [d ->] _ [r IH]]; simpl; [by eexists|].
  unfold mbind at 1. unfold result_bind. rewrite is_our_miner_dict.
  destruct (_ || _); eauto.
Qed.

(** C6. A record of the miner list matches the target id when its
    "miner" key or its "miner_id" key holds that id; the miner selected
    is the first matching record in list order, whichever of the two
    keys made it match; no record is selected exactly when none matches;
    a record holding two different ids under the two keys matches both of
    them; and the search, being a function of the list and the id, gives
    the same answer every time. *)
Theorem find_miner_first_match (miners : list json) (miner_id : string) :
  (∀ m, is_our_miner m miner_id = Ok true
        ↔ ∃ d, m = JDict d
               ∧ (d !! "miner" = Some (JStr miner_id)
                  ∨ d !! "miner_id" = Some (JStr miner_id)))
  ∧ (∀ m, find_miner miners miner_id = Ok (Some m)
          ↔ ∃ before after,
              miners = before ++ m :: after
              ∧ Forall (λ x, is_our_miner x miner_id = Ok false) before
              ∧ is_our_miner m miner_id = Ok true)
  ∧ (find_miner miners miner_id = Ok None
     ↔ Forall (λ x, is_our_miner x miner_id = Ok false) miners)
  ∧ (Forall (λ m, ∃ d, m = JDict d) miners →
     ∃ r, find_miner miners miner_id = Ok r)
  ∧ (∀ d other,
       d !! "miner" = Some (JStr miner_id) →
       d !! "miner_id" = Some (JStr other) →
       is_our_miner (JDict d) miner_id = Ok true
       ∧ is_our_miner (JDict d) other = Ok true).
Proof.
  split_and!.
  - intros m. apply is_our_miner_spec.
  - intros m. apply find_miner_some.
  - apply find_miner_none.
  - apply find_miner_total.
  - intros d other H1 H2. split; apply is_our_miner_spec; eauto.
Qed.

(** A use of C6: looking for "robert" selects the record that names him
    under "miner_id" next to another "miner", since it comes before the
    record that names him alone. *)
Lemma find_miner_first_match_witness :
  find_miner [Samples.alice; Samples.bob; Samples.carol; Samples.robert]
    "robert" = Ok (Some Samples.bob).
Proof.
  apply (find_miner_first_match
           [Samples.alice; Samples.bob; Samples.carol; Samples.robert]
           "robert").
  exists [Samples.alice], [Samples.carol; Samples.robert].
  split_and!; [done | by repeat constructor | by vm_compute].
Defined.
End lookup.

(** ** One iteration of the watch loop *)

Section watch.
Import Py Console Monitor Observe.

Lemma alerts_app (out1 out2 : list event) :
  alerts (out1 ++ out2) = alerts out1 ++ alerts out2.
Proof. apply omap_app. Qed.

Lemma alerts_sleep (interval : Z) (ending : result unit) (st : state) :
  alerts (output (sleep interval ending st)) = [].
Proof. rewrite output_sleep. by destruct (sleep_refusal interval). Qed.

(** [try ... except]: the handler runs on what the body left. *)
Lemma run_try_except {A} (body on_interrupt : M state A)
    (on_exception : exn → M state A) (st : state) :
  match outcome (body st) with
  | Ok a =>
      try_except body on_interrupt on_exception st
      = (output (body st), final (body st), Ok a)
  | Raise e =>
      let handler :=
        match e with
        | KeyboardInterrupt => on_interrupt
        | Exception _ => on_exception e
        end in
      try_except body on_interrupt on_exception st
      = (output (body st) ++ output (handler (final (body st))),
         final (handler (final (body st))),
         outcome (handler (final (body st))))
  end.
Proof.
  unfold try_except, output, final, outcome.
  destruct (body st) as [[out st'] [a|e]]; simpl; [done|].
  destruct e as [|cls].
  - by destruct (on_interrupt st') as [[??]?].
  - by destruct (on_exception (Exception cls) st') as [[??]?].
Qed.

(** The snapshot box announces no epoch and assigns nothing. *)
Lemma show_miner_quiet (m : json) (w : world) (st : state) :
  alerts (output (show_miner m w st)) = []
  ∧ final (show_miner m w st) = st.
Proof.
  unfold show_miner. run_M; try done.
  match goal with p : (string * float)%type |- _ => destruct p end.
  by run_M.
Qed.

Lemma miner_lines_quiet (f : fetched) (w : world) (st : state) :
  alerts (output
            (match our_miner f with
             | Some m =>
                 if truthy m then show_miner m w else print NotFoundLine
             | None => print NotFoundLine
             end st)) = []
  ∧ final (match our_miner f with
           | Some m =>
               if truthy m then show_miner m w else print NotFoundLine
           | None => print NotFoundLine
           end st) = st.
Proof.
  destruct (our_miner f) as [m|]; [destruct (truthy m)|]; try done.
  apply show_miner_quiet.
Qed.

Lemma display_quiet (miner_id : string) (w : world) (f : fetched)
    (st : state) :
  alerts (output (display miner_id w f st)) = []
  ∧ final (display miner_id w f st) = st.
Proof.
  destruct (miner_lines_quiet f w st) as [Hout Hfin].
  unfold display. run_M; rewrite ?alerts_app, ?Hout, ?Hfin; done.
Qed.

Lemma display_final (miner_id : string) (w : world) (f : fetched)
    (st : state) :
  final (display miner_id w f st) = st.
Proof. apply display_quiet. Qed.

Lemma display_alerts (miner_id : string) (w : world) (f : fetched)
    (st : state) :
  alerts (output (display miner_id w f st)) = [].
Proof. apply display_quiet. Qed.

(** A balance that was displayed is the number fetched, and [float]
    accepts it. *)
Lemma display_balance (miner_id : string) (w : world) (f : fetched)
    (st : state) (bal : num) :
  outcome (display miner_id w f st) = Ok bal →
  as_num (balance f) = Some bal ∧ float_convertible bal.
Proof.
  unfold display. run_M; try done. intros [= <-].
  match goal with H : format_balance _ = Ok _ |- _ => revert H end.
  unfold format_balance, format_f, float_convertible.
  destruct (balance f); simpl; try done;
    repeat case_match; naive_solver.
Qed.

Lemma format_f_spec (n r : num) :
  format_f n = Ok r ↔ r = n ∧ float_convertible n.
Proof.
  unfold format_f, float_convertible.
  destruct (to_float n); split; naive_solver.
Qed.

(** What the epoch check announces. *)
Lemma check_epoch_alerts (bal : num) (f : fetched) (st : state) :
  alerts (output (check_epoch bal f st))
  = match numeric (current_epoch f) with
    | Ok epoch =>
        if gt epoch (last_epoch st) && gt (last_epoch st) (NInt 0)
        then match sub bal (last_balance st) ≫= format_f with
             | Ok reward => [reward]
             | Raise _ => []
             end
        else []
    | Raise _ => []
    end.
Proof.
  unfold check_epoch. simp_M.
  destruct (numeric (current_epoch f)) as [epoch|]; simp_M; [|done].
  destruct (gt epoch (last_epoch st) && gt (last_epoch st) (NInt 0));
    simp_M; [|done].
  unfold mbind at 1, result_bind.
  destruct (sub bal (last_balance st)) as [reward|]; simp_M; [|done].
  destruct (format_f reward); by simp_M.
Qed.

Lemma check_epoch_final (bal : num) (f : fetched) (st : state) :
  final (check_epoch bal f st) = st.
Proof.
  unfold check_epoch. simp_M.
  destruct (numeric (current_epoch f)) as [epoch|]; simp_M; [|done].
  destruct (gt epoch (last_epoch st) && gt (last_epoch st) (NInt 0));
    simp_M; [|done].
  destruct (sub bal (last_balance st)) as [reward|]; simp_M; [|done].
  destruct (format_f reward); by simp_M.
Qed.

Lemma check_epoch_outcome (bal : num) (f : fetched) (st : state)
    (epoch : num) :
  outcome (check_epoch bal f st) = Ok epoch →
  as_num (current_epoch f) = Some epoch.
Proof.
  unfold check_epoch, numeric. simp_M.
  destruct (as_num (current_epoch f)) as [epoch'|]; simp_M; [|done].
  destruct (gt epoch' (last_epoch st) && gt (last_epoch st) (NInt 0));
    simp_M; [|congruence].
  destruct (sub bal (last_balance st)) as [reward|]; simp_M; [|done].
  destruct (format_f reward); simp_M; [congruence|done].
Qed.

(** Lines 81-122 assign nothing. *)
Lemma snapshot_final (miner_id : string) (w : world) (st : state) :
  final (snapshot miner_id w st) = st.
Proof.
  unfold snapshot. run_M;
    by rewrite ?check_epoch_final, ?display_final.
Qed.

Lemma snapshot_alerts (miner_id : string) (w : world) (st : state) :
  alerts (output (snapshot miner_id w st))
  = match poll miner_id w with
    | Ok f =>
        match outcome (display miner_id w f st) with
        | Ok bal => alerts (output (check_epoch bal f st))
        | Raise _ => []
        end
    | Raise _ => []
    end.
Proof.
  unfold snapshot. run_M; try done.
  all: by rewrite ?alerts_app, ?display_alerts, ?display_final, ?app_nil_r.
Qed.

Lemma snapshot_outcome (miner_id : string) (w : world) (st : state)
    (bal epoch : num) :
  outcome (snapshot miner_id w st) = Ok (bal, epoch)
  ↔ ∃ f, poll miner_id w = Ok f
         ∧ outcome (display miner_id w f st) = Ok bal
         ∧ outcome (check_epoch bal f st) = Ok epoch.
Proof.
  unfold snapshot. run_M.
  all: try (split; [done | intros (f & ? & ? & ?); congruence]).
  all: rewrite ?display_final in *.
  all: split; [intros [= <- <-]; eauto | intros (f & ? & ? & ?)].
  all: simplify_eq/=; congruence.
Qed.

(** The [try] block: the snapshot, then the assignment and the sleep. *)
Lemma try_body_run (miner_id : string) (interval : Z) (w : world)
    (st : state) :
  match outcome (snapshot miner_id w st) with
  | Ok (bal, epoch) =>
      output (try_body miner_id interval w st)
      = output (snapshot miner_id w st)
        ++ match sleep_refusal interval with
           | Some _ => []
           | None => [Sleep interval]
           end
      ∧ final (try_body miner_id interval w st)
        = {| last_balance := bal; last_epoch := epoch |}
      ∧ outcome (try_body miner_id interval w st)
        = match sleep_refusal interval with
          | Some e => Raise e
          | None => sleep_ending w
          end
  | Raise e =>
      output (try_body miner_id interval w st)
      = output (snapshot miner_id w st)
      ∧ final (try_body miner_id interval w st) = st
      ∧ outcome (try_body miner_id interval w st) = Raise e
  end.
Proof.
  unfold try_body. autorewrite with run.
  destruct (outcome (snapshot miner_id w st)) as [[bal epoch]|e] eqn:E.
  - by simp_M.
  - by rewrite snapshot_final.
Qed.

(** One pass through the loop, by the way its [try] block ends. *)
Lemma iteration_run (miner_id : string) (interval : Z) (w : world)
    (st : state) :
  iteration miner_id interval w st
  = let body := try_body miner_id interval w st in
    match outcome body with
    | Ok _ => (output body, final body, Ok Continue)
    | Raise KeyboardInterrupt =>
        (output body ++ [Farewell], final body, Ok Break)
    | Raise (Exception cls) =>
        let nap := sleep interval (handler_sleep_ending w) (final body) in
        (output body ++ ErrorLine (Exception cls) :: output nap,
         final body,
         match outcome nap with
         | Ok _ => Ok Continue
         | Raise e => Raise e
         end)
    end.
Proof.
  unfold iteration, try_except, sleep. unfold_M.
  destruct (try_body miner_id interval w st) as [[out st'] [[]|[|cls]]];
    simpl; rewrite ?app_nil_r; try done.
  destruct (sleep_refusal interval); simpl; [done|].
  by destruct (handler_sleep_ending w) as [[]|].
Qed.

Lemma iteration_final (miner_id : string) (interval : Z) (w : world)
    (st : state) :
  final (iteration miner_id interval w st)
  = final (try_body miner_id interval w st).
Proof.
  rewrite iteration_run. simpl.
  by destruct (outcome (try_body miner_id interval w st)) as [|[|]].
Qed.

(** The only alerts of an iteration are those of its epoch check. *)
Lemma iteration_alerts (miner_id : string) (interval : Z) (w : world)
    (st : state) :
  alerts (output (iteration miner_id interval w st))
  = alerts (output (snapshot miner_id w st)).
Proof.
  rewrite iteration_run. simpl.
  pose proof (try_body_run miner_id interval w st) as Hbody.
  assert (alerts (output (try_body miner_id interval w st))
          = alerts (output (snapshot miner_id w st))) as <-.
  { destruct (outcome (snapshot miner_id w st)) as [[bal epoch]|e].
    - destruct Hbody as (-> & _). rewrite alerts_app.
      destruct (sleep_refusal interval); simpl; by rewrite app_nil_r.
    - by destruct Hbody as (-> & _). }
  destruct (outcome (try_body miner_id interval w st)) as [|[|cls]];
    unfold output; simpl; rewrite ?alerts_app; simpl;
    rewrite ?app_nil_r; try done.
  fold (output (A:=unit)
          (sleep interval (handler_sleep_ending w)
             (final (try_body miner_id interval w st)))).
  by rewrite alerts_sleep, app_nil_r.
Qed.

(** The stored balance stays one that [float] accepts. *)
Lemma iteration_keeps_convertible (miner_id : string) (interval : Z)
    (w : world) (st : state) :
  float_convertible (last_balance st) →
  float_convertible
    (last_balance (final (iteration miner_id interval w st))).
Proof.
  intros Hst. rewrite iteration_final.
  pose proof (try_body_run miner_id interval w st) as Hbody.
  destruct (outcome (snapshot miner_id w st)) as [[bal epoch]|e] eqn:E.
  - destruct Hbody as (_ & -> & _). simpl.
    apply snapshot_outcome in E as (f & _ & Hbal & _).
    by apply display_balance in Hbal as [_ ?].
  - by destruct Hbody as (_ & -> & _).
Qed.

Lemma loop_keeps_convertible (miner_id : string) (interval : Z)
    (ws : list world) :
  ∀ st, float_convertible (last_balance st) →
        float_convertible
          (last_balance (final (loop miner_id interval ws st))).
Proof.
  induction ws as [|w ws IH]; intros st Hst; simpl; [done|].
  autorewrite with run.
  pose proof (iteration_keeps_convertible miner_id interval w st Hst).
  destruct (outcome (iteration miner_id interval w st)) as [[]|];
    simpl; auto.
Qed.

Lemma reachable_convertible (st : state) :
  reachable st → float_convertible (last_balance st).
Proof.
  intros (miner_id & interval & ws & <-).
  apply loop_keeps_convertible. by eexists.
Qed.

(** The difference of two balances that [float] accepts is defined. *)
Lemma sub_defined (a b : num) :
  float_convertible a → float_convertible b → ∃ r, sub a b = Ok r.
Proof.
  intros [x Hx] [y Hy]. unfold sub. rewrite Hx, Hy.
  destruct a, b; eauto.
Qed.

(** What [poll] returns is what the three requests returned. *)
Lemma poll_fetched (miner_id : string) (w : world) (f : fetched) :
  poll miner_id w = Ok f →
  get_miner_balance w miner_id = Ok (balance f)
  ∧ ∃ epoch_data ms,
      get_epoch w = Ok epoch_data
      ∧ get epoch_data "current_epoch" (JInt 0) = Ok (current_epoch f)
      ∧ get_miners w ≫= iter = Ok ms
      ∧ find_miner ms miner_id = Ok (our_miner f).
Proof.
  unfold poll, mbind, result_bind.
  destruct (get_epoch w) as [epoch_data|]; [|done].
  destruct (get_miner_balance w miner_id) as [bal|]; [|done].
  destruct (get_miners w) as [miners|]; [|done].
  destruct (iter miners) as [ms|] eqn:Hms; [|done].
  destruct (find_miner ms miner_id) as [found|] eqn:Hfound; [|done].
  destruct (get epoch_data "current_epoch" (JInt 0)) as [epoch|] eqn:He;
    [|done].
  intros [= <-]. simpl. split; [done|]. by exists epoch_data, ms.
Qed.

(** The alerts of an iteration that displayed its snapshot. *)
Lemma iteration_alerts_displayed (miner_id : string) (interval : Z)
    (w : world) (st : state) (f : fetched) (bal : num) :
  poll miner_id w = Ok f →
  outcome (display miner_id w f st) = Ok bal →
  alerts (output (iteration miner_id interval w st))
  = alerts (output (check_epoch bal f st)).
Proof.
  intros Hpoll Hdisplay.
  by rewrite iteration_alerts, snapshot_alerts, Hpoll, Hdisplay.
Qed.

(** An alert needs a snapshot, a numeric epoch and the two comparisons. *)
Lemma iteration_alert_inv (miner_id : string) (interval : Z) (w : world)
    (st : state) (reward : num) :
  reward ∈ alerts (output (iteration miner_id interval w st)) →
  ∃ f bal epoch,
    poll miner_id w = Ok f
    ∧ outcome (display miner_id w f st) = Ok bal
    ∧ as_num (current_epoch f) = Some epoch
    ∧ gt epoch (last_epoch st) = true
    ∧ gt (last_epoch st) (NInt 0) = true
    ∧ sub bal (last_balance st) = Ok reward
    ∧ float_convertible reward
    ∧ alerts (output (iteration miner_id interval w st)) = [reward].
Proof.
  rewrite iteration_alerts, snapshot_alerts.
  destruct (poll miner_id w) as [f|] eqn:Hpoll; [|by intros ?%elem_of_nil].
  destruct (outcome (display miner_id w f st)) as [bal|] eqn:Hdisplay;
    [|by intros ?%elem_of_nil].
  rewrite check_epoch_alerts. unfold numeric.
  destruct (as_num (current_epoch f)) as [epoch|] eqn:Hepoch;
    [|by intros ?%elem_of_nil].
  destruct (gt epoch (last_epoch st)) eqn:Hgt; simpl;
    [|by intros ?%elem_of_nil].
  destruct (gt (last_epoch st) (NInt 0)) eqn:Hpos; simpl;
    [|by intros ?%elem_of_nil].
  destruct (sub bal (last_balance st)) as [r|] eqn:Hsub;
    [|by intros ?%elem_of_nil].
  unfold mbind, result_bind.
  destruct (format_f r) as [r'|] eqn:Hformat; [|by intros ?%elem_of_nil].
  apply format_f_spec in Hformat as [-> Hr].
  intros ->%list_elem_of_singleton. by exists f, bal, epoch.
Qed.

Lemma gt_zero_zero : gt (NInt 0) (NInt 0) = false.
Proof. done. Qed.

(** With nothing above zero stored as the last epoch, no alert. *)
Lemma no_alert_without_last_epoch (miner_id : string) (interval : Z)
    (w : world) (st : state) :
  gt (last_epoch st) (NInt 0) = false →
  alerts (output (iteration miner_id interval w st)) = [].
Proof.
  intros Hzero.
  destruct (alerts (output (iteration miner_id interval w st)))
    as [|reward rest] eqn:E; [done|].
  destruct (iteration_alert_inv miner_id interval w st reward)
    as (? & ? & ? & _ & _ & _ & _ & Hpos & _); [|congruence].
  rewrite E. left.
Qed.

(** When the epoch check raises nothing, it announces a reward exactly
    when both comparisons hold. *)
Lemma check_epoch_completes (bal : num) (f : fetched) (st : state)
    (epoch : num) :
  outcome (check_epoch bal f st) = Ok epoch →
  (∃ reward, alerts (output (check_epoch bal f st)) = [reward])
  ↔ gt epoch (last_epoch st) = true ∧ gt (last_epoch st) (NInt 0) = true.
Proof.
  intros Hcheck. pose proof (check_epoch_outcome _ _ _ _ Hcheck) as Hepoch.
  revert Hcheck. rewrite check_epoch_alerts.
  unfold check_epoch, numeric. rewrite Hepoch. simp_M.
  rewrite <- andb_true_iff.
  destruct (gt epoch (last_epoch st) && gt (last_epoch st) (NInt 0));
    simp_M; [|intros _; split; [by intros [? ?] | done]].
  unfold mbind at 2, result_bind.
  destruct (sub bal (last_balance st)) as [reward|]; simp_M; [|done].
  destruct (format_f reward) as [reward'|]; simp_M; [|done].
  intros _. split; [done | by exists reward'].
Qed.

(** With a float balance, as the node's API sends it, the reward can
    always be computed and formatted. *)
Lemma float_reward_defined (b : float) (last : num) :
  float_convertible last →
  ∃ reward, sub (NFloat b) last ≫= format_f = Ok reward.
Proof.
  intros [y Hy]. unfold sub. simpl. rewrite Hy.
  destruct last; by eexists.
Qed.

(** Against C1 as stated. The node states balances as integers: -10^308
    at epoch 1, which the first iteration stores, then 10^308 at epoch 2.
    In the second iteration the current epoch is greater than the last
    one and the last one is greater than 0, but the reward 2 * 10^308 is
    an int that [float] refuses, the [.6f] field of the alert raises
    [OverflowError], and no alert is printed. *)
Lemma alert_missed_when_reward_overflows :
  final (loop "alice" 60 [Corner.ledger 1 (- 10 ^ 308)] initial)
    = {| last_balance := NInt (- 10 ^ 308); last_epoch := NInt 1 |}
  ∧ poll "alice" (Corner.ledger 2 (10 ^ 308))
    = Ok {| balance := JInt (10 ^ 308); our_miner := Some Samples.alice;
            current_epoch := JInt 2 |}
  ∧ gt (NInt 2) (NInt 1) = true
  ∧ gt (NInt 1) (NInt 0) = true
  ∧ alerts (output (iteration "alice" 60 (Corner.ledger 2 (10 ^ 308))
                      {| last_balance := NInt (- 10 ^ 308);
                         last_epoch := NInt 1 |})) = []
  ∧ outcome (snapshot "alice" (Corner.ledger 2 (10 ^ 308))
               {| last_balance := NInt (- 10 ^ 308);
                  last_epoch := NInt 1 |}) = Raise OverflowError.
Proof. split_and!; by vm_compute. Qed.

(** C1, amended. In an iteration of the watch loop the epoch alert is
    printed only if the fetched current epoch is greater than the last
    epoch and the last epoch is greater than 0; in an iteration whose
    lines 81-122 raise no exception it is printed if and only if both
    comparisons hold; it is printed whenever they hold once the snapshot
    is displayed, in a state the loop can reach with a float balance
    fetched; it is not printed when the last epoch is 0, whatever the
    current epoch, and so never on the first iteration of
    [watch_miner]. *)
Theorem epoch_alert_iff (miner_id : string) (interval : Z) (w : world)
    (st : state) :
  (∀ reward,
     reward ∈ alerts (output (iteration miner_id interval w st)) →
     ∃ f epoch,
       poll miner_id w = Ok f
       ∧ as_num (current_epoch f) = Some epoch
       ∧ gt epoch (last_epoch st) = true
       ∧ gt (last_epoch st) (NInt 0) = true)
  ∧ (∀ bal epoch,
       outcome (snapshot miner_id w st) = Ok (bal, epoch) →
       (∃ f, poll miner_id w = Ok f
             ∧ as_num (current_epoch f) = Some epoch)
       ∧ ((∃ reward,
             alerts (output (iteration miner_id interval w st)) = [reward])
          ↔ gt epoch (last_epoch st) = true
            ∧ gt (last_epoch st) (NInt 0) = true))
  ∧ (∀ f b bal epoch,
       reachable st →
       poll miner_id w = Ok f →
       balance f = JFloat b →
       outcome (display miner_id w f st) = Ok bal →
       as_num (current_epoch f) = Some epoch →
       gt epoch (last_epoch st) = true →
       gt (last_epoch st) (NInt 0) = true →
       ∃ reward,
         alerts (output (iteration miner_id interval w st)) = [reward])
  ∧ (last_epoch st = NInt 0 →
     alerts (output (iteration miner_id interval w st)) = [])
  ∧ (∀ st0, alerts (output (watch_miner miner_id interval [w] st0)) = []).
Proof.
  split_and!.
  - intros reward Hin.
    destruct (iteration_alert_inv _ _ _ _ _ Hin)
      as (f & bal & epoch & ? & ? & ? & ? & ? & _).
    by exists f, epoch.
  - intros bal epoch Hsnap.
    apply snapshot_outcome in Hsnap as (f & Hpoll & Hdisplay & Hcheck).
    split.
    + exists f. split; [done|]. by apply check_epoch_outcome in Hcheck.
    + rewrite (iteration_alerts_displayed _ _ _ _ f bal) by done.
      by apply check_epoch_completes.
  - intros f b bal epoch Hst Hpoll Hb Hdisplay Hepoch Hgt Hpos.
    rewrite (iteration_alerts_displayed _ _ _ _ f bal) by done.
    rewrite check_epoch_alerts. unfold numeric.
    rewrite Hepoch, Hgt, Hpos. simpl.
    apply display_balance in Hdisplay as [Hbal _].
    rewrite Hb in Hbal. injection Hbal as <-.
    destruct (float_reward_defined b (last_balance st)) as [reward ->];
      [by apply reachable_convertible | by exists reward].
  - intros Hzero. apply no_alert_without_last_epoch. by rewrite Hzero.
  - intros st0. unfold watch_miner. simp_M.
    pose proof (no_alert_without_last_epoch miner_id interval w initial
                  gt_zero_zero) as Hfirst.
    destruct (outcome (iteration miner_id interval w initial)) as [[]|];
      simp_M; by rewrite ?app_nil_r.
Qed.

(** A use of C1: at epoch 5, after an iteration at epoch 4, the alert is
    printed. *)
Lemma epoch_alert_iff_witness :
  ∃ reward,
    alerts (output (iteration "alice" 60 (Samples.node 5 1)
                      {| last_balance := NFloat 2.5;
                         last_epoch := NInt 4 |})) = [reward].
Proof.
  destruct (epoch_alert_iff "alice" 60 (Samples.node 5 1)
              {| last_balance := NFloat 2.5; last_epoch := NInt 4 |})
    as (_ & H & _).
  destruct (H (NFloat 1) (NInt 5)) as [_ [_ Halert]]; [by vm_compute|].
  apply Halert. by vm_compute.
Defined.

(** C9. When the epoch alert is printed, the reward it shows is the
    balance just fetched minus the balance stored by the last completed
    iteration: the exact difference of two ints, the binary64 difference
    otherwise, negative when the balance went down. *)
Theorem alert_reward_is_balance_delta (miner_id : string) (interval : Z)
    (w : world) (st : state) (reward : num) :
  reward ∈ alerts (output (iteration miner_id interval w st)) →
  ∃ f bal,
    poll miner_id w = Ok f
    ∧ get_miner_balance w miner_id = Ok (balance f)
    ∧ as_num (balance f) = Some bal
    ∧ sub bal (last_balance st) = Ok reward
    ∧ alerts (output (iteration miner_id interval w st)) = [reward]
    ∧ match bal, last_balance st with
      | NInt x, NInt y => reward = NInt (x - y)
      | _, _ =>
          ∃ x y, to_float bal = Some x
                 ∧ to_float (last_balance st) = Some y
                 ∧ reward = NFloat (x - y)%float
      end.
Proof.
  intros Hin.
  destruct (iteration_alert_inv _ _ _ _ _ Hin)
    as (f & bal & epoch & Hpoll & Hdisplay & _ & _ & _ & Hsub & _ & Halert).
  exists f, bal. split_and!; try done.
  - by apply poll_fetched in Hpoll as [? _].
  - by apply display_balance in Hdisplay as [? _].
  - revert Hsub. unfold sub.
    destruct bal, (last_balance st); try (by intros [= <-]);
      repeat case_match; try done; intros [= <-]; eauto.
Qed.

(** A use of C9: the balance fell from 2.5 to 1, the alert shows -1.5. *)
Lemma alert_reward_is_balance_delta_witness :
  ∃ f bal,
    poll "alice" (Samples.node 5 1) = Ok f
    ∧ get_miner_balance (Samples.node 5 1) "alice" = Ok (balance f)
    ∧ as_num (balance f) = Some bal
    ∧ sub bal (NFloat 2.5) = Ok (NFloat (-1.5))
    ∧ alerts (output (iteration "alice" 60 (Samples.node 5 1)
                        {| last_balance := NFloat 2.5;
                           last_epoch := NInt 4 |})) = [NFloat (-1.5)].
Proof.
  destruct (alert_reward_is_balance_delta "alice" 60 (Samples.node 5 1)
              {| last_balance := NFloat 2.5; last_epoch := NInt 4 |}
              (NFloat (-1.5)))
    as (f & bal & H1 & H2 & H3 & H4 & H5 & _).
  - vm_compute. left.
  - exists f, bal.
    exact (conj H1 (conj H2 (conj H3 (conj H4 H5)))).
Defined.

(** The state an iteration leaves, by the way lines 81-122 end. *)
Lemma iteration_state (miner_id : string) (interval : Z) (w : world)
    (st : state) :
  final (iteration miner_id interval w st)
  = match outcome (snapshot miner_id w st) with
    | Ok (bal, epoch) => {| last_balance := bal; last_epoch := epoch |}
    | Raise _ => st
    end.
Proof.
  rewrite iteration_final.
  pose proof (try_body_run miner_id interval w st) as Hbody.
  destruct (outcome (snapshot miner_id w st)) as [[bal epoch]|e];
    by destruct Hbody as (_ & -> & _).
Qed.

(** Against C5 as stated: the epoch (5) and the balance (1.0) are
    fetched, the request for the miner list fails, the exception is caught
    and the loop goes on, and both variables still hold their old values,
    not the values fetched. *)
Lemma state_kept_when_request_fails :
  get_epoch (Samples.miners_down 5 1)
    = Ok (Samples.dict [("current_epoch", JInt 5)])
  ∧ get_miner_balance (Samples.miners_down 5 1) "alice" = Ok (JFloat 1)
  ∧ output (iteration "alice" 60 (Samples.miners_down 5 1) initial)
    = [ErrorLine (Exception "ConnectionError"); Sleep 60]
  ∧ outcome (iteration "alice" 60 (Samples.miners_down 5 1) initial)
    = Ok Continue
  ∧ final (iteration "alice" 60 (Samples.miners_down 5 1) initial)
    = initial
  ∧ final (iteration "alice" 60 (Samples.miners_down 5 1) initial)
    ≠ {| last_balance := NFloat 1; last_epoch := NInt 5 |}.
Proof.
  split_and!; by vm_compute.
Qed.

(** C5, amended. An iteration whose lines 81-122 complete (requests,
    snapshot box and epoch check raise nothing) leaves in [last_balance]
    and [last_epoch] the balance and the current epoch it fetched; an
    iteration in which those lines raise an exception leaves both
    variables as they were. *)
Theorem state_overwritten_when_snapshot_completes (miner_id : string)
    (interval : Z) (w : world) (st : state) :
  (∀ bal epoch,
     outcome (snapshot miner_id w st) = Ok (bal, epoch) →
     final (iteration miner_id interval w st)
       = {| last_balance := bal; last_epoch := epoch |}
     ∧ ∃ f, poll miner_id w = Ok f
            ∧ get_miner_balance w miner_id = Ok (balance f)
            ∧ as_num (balance f) = Some bal
            ∧ as_num (current_epoch f) = Some epoch)
  ∧ (∀ e,
       outcome (snapshot miner_id w st) = Raise e →
       final (iteration miner_id interval w st) = st).
Proof.
  split.
  - intros bal epoch Hsnap. rewrite iteration_state, Hsnap.
    split; [done|].
    apply snapshot_outcome in Hsnap as (f & Hpoll & Hdisplay & Hcheck).
    exists f. split_and!; [done | | |].
    + by apply poll_fetched in Hpoll as [? _].
    + by apply display_balance in Hdisplay as [? _].
    + by apply check_epoch_outcome in Hcheck.
  - intros e Hsnap. by rewrite iteration_state, Hsnap.
Qed.

(** A use of C5 as amended: the first iteration against the sample node
    stores balance 2.5 and epoch 4. *)
Lemma state_overwritten_when_snapshot_completes_witness :
  final (iteration "alice" 60 (Samples.node 4 2.5) initial)
  = {| last_balance := NFloat 2.5; last_epoch := NInt 4 |}.
Proof.
  destruct (state_overwritten_when_snapshot_completes
              "alice" 60 (Samples.node 4 2.5) initial) as [H _].
  apply H. by vm_compute.
Defined.

(** The loop after its first iteration. *)
Lemma loop_step (miner_id : string) (interval : Z) (w : world)
    (ws : list world) (st : state) :
  match outcome (iteration miner_id interval w st) with
  | Ok Continue =>
      output (loop miner_id interval (w :: ws) st)
      = output (iteration miner_id interval w st)
        ++ output (loop miner_id interval ws
                     (final (iteration miner_id interval w st)))
      ∧ outcome (loop miner_id interval (w :: ws) st)
        = outcome (loop miner_id interval ws
                     (final (iteration miner_id interval w st)))
  | Ok Break =>
      output (loop miner_id interval (w :: ws) st)
      = output (iteration miner_id interval w st)
      ∧ outcome (loop miner_id interval (w :: ws) st) = Ok Break
  | Raise e =>
      output (loop miner_id interval (w :: ws) st)
      = output (iteration miner_id interval w st)
      ∧ outcome (loop miner_id interval (w :: ws) st) = Raise e
  end.
Proof.
  simpl. autorewrite with run.
  destruct (outcome (iteration miner_id interval w st)) as [[]|];
    simp_M; by rewrite ?app_nil_r.
Qed.

(** Ctrl-C while the epoch is being fetched: farewell, and the loop ends
    without meeting the world of a second iteration. *)
Example interrupt_on_fetch_says_farewell :
  loop "alice" 60 [Samples.interrupt_on_fetch; Samples.node 5 1] initial
  = ([Farewell], initial, Ok Break).
Proof. by vm_compute. Qed.


(** The lengths [time.sleep] accepts. *)
Lemma sleep_accepted (interval : Z) :
  sleep_refusal interval = None ↔ 0 ≤ interval ≤ 9223372036.
Proof.
  unfold sleep_refusal.
  destruct (Z.ltb_spec interval (-9223372036)),
    (Z.ltb_spec 9223372036 interval), (Z.ltb_spec interval 0);
    simpl; split; intros; try done; lia.
Qed.


End watch.

(** ** The base URL and the command line *)

Section cli.
Import Py Console Monitor Observe Cli Measure.

Lemma append_cons (a : ascii) (s t : string) :
  String a s +:+ t = String a (s +:+ t).
Proof. done. Qed.

Lemma append_empty (t : string) : "" +:+ t = t.
Proof. done. Qed.

Lemma append_nil_r (s : string) : s +:+ "" = s.
Proof.
  induction s as [|a s IH]; [done|]. by rewrite append_cons, IH.
Qed.

Lemma append_assoc (s t u : string) : (s +:+ t) +:+ u = s +:+ (t +:+ u).
Proof.
  induction s as [|a s IH]; [done|]. by rewrite !append_cons, IH.
Qed.

Lemma rstrip_split (c : ascii) (s : string) :
  ∃ n, s = rstrip c s +:+ run_of c n.
Proof.
  induction s as [|a s [n IH]]; simpl.
  - by exists 0%nat.
  - destruct (rstrip c s) as [|b rest] eqn:E.
    + rewrite append_empty in IH.
      destruct (Ascii.eqb_spec a c) as [->|Hne].
      * exists (S n). rewrite append_empty. simpl. by rewrite <- IH.
      * exists n. by rewrite append_cons, append_empty, <- IH.
    + exists n. by rewrite append_cons, <- IH.
Qed.

Lemma rstrip_no_trailing (c : ascii) (s t : string) :
  rstrip c s ≠ t +:+ String c "".
Proof.
  revert t. induction s as [|a s IH]; intros t; simpl.
  - by destruct t.
  - destruct (rstrip c s) as [|b rest] eqn:E.
    + destruct (Ascii.eqb_spec a c) as [->|Hne].
      * by destruct t.
      * destruct t as [|a' [|??]]; rewrite ?append_cons, ?append_empty;
          congruence.
    + destruct t as [|a' t']; rewrite ?append_cons, ?append_empty.
      * congruence.
      * intros [= _ H]. by apply (IH t').
Qed.

Lemma rstrip_fixed (c : ascii) (s : string) :
  (∀ t, s ≠ t +:+ String c "") → rstrip c s = s.
Proof.
  induction s as [|a s IH]; intros Hs; simpl; [done|].
  rewrite IH.
  - destruct s; [|done].
    destruct (Ascii.eqb_spec a c) as [->|]; [|done].
    by destruct (Hs "").
  - intros t ->. by apply (Hs (String a t)).
Qed.

Lemma rstrip_trailing (c : ascii) (s : string) :
  rstrip c (s +:+ String c "") = rstrip c s.
Proof.
  induction s as [|a s IH]; rewrite ?append_cons, ?append_empty; simpl.
  - by rewrite Ascii.eqb_refl.
  - by rewrite IH.
Qed.

Lemma rstrip_run (c : ascii) (s : string) (n : nat) :
  rstrip c (s +:+ run_of c n) = rstrip c s.
Proof.
  revert s. induction n as [|n IH]; intros s; simpl.
  - by rewrite append_nil_r.
  - change (String c (run_of c n)) with (String c "" +:+ run_of c n).
    by rewrite <- append_assoc, IH, rstrip_trailing.
Qed.

(** X1. The base URL a monitor keeps is the URL given without its
    trailing slashes, and nothing else is removed: the URL given is the
    base URL followed by a run of slashes, the base URL does not end with
    a slash, a URL that does not end with a slash is kept as it is, and
    building a monitor from a base URL changes nothing. *)
Theorem node_url_without_trailing_slashes (url : string) :
  (∃ n, url = node_url (new_monitor url) +:+ run_of "/" n)
  ∧ (∀ t, node_url (new_monitor url) ≠ t +:+ "/")
  ∧ ((∀ t, url ≠ t +:+ "/") → node_url (new_monitor url) = url)
  ∧ new_monitor (node_url (new_monitor url)) = new_monitor url.
Proof.
  unfold new_monitor. simpl. split_and!.
  - apply rstrip_split.
  - apply rstrip_no_trailing.
  - apply rstrip_fixed.
  - f_equal. apply rstrip_fixed, rstrip_no_trailing.
Qed.

(** A use of X1: a URL without a trailing slash is the base URL. *)
Lemma node_url_without_trailing_slashes_witness :
  node_url (new_monitor "https://50.28.86.131") = "https://50.28.86.131".
Proof.
  destruct (node_url_without_trailing_slashes "https://50.28.86.131")
    as (_ & _ & H & _).
  apply H. intros t Ht.
  apply (rstrip_no_trailing "/" "https://50.28.86.131" t).
  by rewrite <- Ht.
Defined.

(** X2. Trailing slashes on [--node] change nothing: the monitor, the
    four URLs it requests and the whole run of [main] are the same with
    and without them. *)
Theorem trailing_slashes_do_not_matter (a : args) (n : nat) :
  let a' := {| node := node a +:+ run_of "/" n; miner := miner a;
               watch := watch a; interval := interval a |} in
  new_monitor (node a') = new_monitor (node a)
  ∧ health_url (new_monitor (node a'))
    = rstrip "/" (node a) +:+ "/health"
  ∧ epoch_url (new_monitor (node a')) = rstrip "/" (node a) +:+ "/epoch"
  ∧ miners_url (new_monitor (node a'))
    = rstrip "/" (node a) +:+ "/api/miners"
  ∧ (∀ miner_id,
       balance_url (new_monitor (node a')) miner_id
       = rstrip "/" (node a) +:+ "/wallet/balance?miner_id=" +:+ miner_id)
  ∧ (∀ r rs, main a' r rs = main a r rs).
Proof.
  simpl.
  assert (new_monitor (node a +:+ run_of "/" n) = new_monitor (node a))
    as Hm by (unfold new_monitor; by rewrite rstrip_run).
  unfold health_url, epoch_url, miners_url, balance_url.
  rewrite Hm. split_and!; try done.
  intros r rs. unfold main. simpl. by rewrite Hm.
Qed.

(** X3. The three modes of [main]. With a miner id and [--watch] it runs
    the watch loop on that id with the interval given; with a miner id
    alone it makes the single balance query, whatever the interval; and
    without a miner id (none, or an empty one) it prints the network
    summary, whatever [--watch] and [--interval] say. The one-shot modes
    use the first round only. *)
Theorem main_modes (a : args) (r : round) (rs : list round) :
  (given (miner a) = true → watch a = true →
   ∃ miner_id,
     miner a = Some miner_id ∧ miner_id ≠ ""
     ∧ main a r rs
       = (Shown <$> output (watch_miner miner_id (interval a)
                              (world_of (new_monitor (node a)) <$> r :: rs)
                              initial),
          match outcome (watch_miner miner_id (interval a)
                           (world_of (new_monitor (node a)) <$> r :: rs)
                           initial) with
          | Ok Break => Ok Finished
          | Ok Continue => Ok StillWatching
          | Raise e => Raise e
          end))
  ∧ (given (miner a) = true → watch a = false →
     ∃ miner_id,
       miner a = Some miner_id ∧ miner_id ≠ ""
       ∧ main a r rs
         = report_balance (world_of (new_monitor (node a)) r) miner_id)
  ∧ (given (miner a) = false →
     main a r rs
     = (Shown <$> output (network_summary
                            (world_of (new_monitor (node a)) r) tt),
        match outcome (network_summary
                         (world_of (new_monitor (node a)) r) tt) with
        | Ok _ => Ok Finished
        | Raise e => Raise e
        end)).
Proof.
  unfold main, given, output, outcome.
  destruct (miner a) as [id|]; simpl.
  - destruct (String.eqb_spec id "") as [->|Hid]; simpl.
    + split_and!; try done.
      intros _. by destruct (network_summary _ _) as [[??]?].
    + split_and!; try done.
      * intros _ ->. exists id. split_and!; try done.
        by destruct (watch_miner _ _ _ _) as [[??]?].
      * intros _ ->. by exists id.
  - split_and!; try done.
    intros _. by destruct (network_summary _ _) as [[??]?].
Qed.

(** A use of X3: an empty miner id with [--watch] gives the summary. *)
Lemma main_modes_witness :
  main {| node := "http://node/"; miner := Some ""; watch := true;
          interval := 5 |} (Scenes.calm 7 2.5) [Scenes.offline]
  = (Shown <$> output (network_summary
                         (world_of (new_monitor "http://node/")
                            (Scenes.calm 7 2.5)) tt),
     Ok Finished).
Proof.
  destruct (main_modes {| node := "http://node/"; miner := Some "";
                          watch := true; interval := 5 |}
              (Scenes.calm 7 2.5) [Scenes.offline]) as (_ & _ & H).
  rewrite H by done. by f_equal.
Defined.
End cli.

(** ** The one-shot paths *)

Section one_shot.
Import Py Console Monitor Observe Cli Measure.

Lemma format_balance_ok (v : json) (b : num) :
  format_balance v = Ok b ↔ as_num v = Some b ∧ float_convertible b.
Proof.
  unfold format_balance.
  destruct v; simpl; rewrite ?format_f_spec; naive_solver.
Qed.

(** X4. The single balance query. A failed request, or an answer that is
    not a JSON object, ends it before anything is printed; an object
    without "balance_rtc" is reported as balance 0.0; a balance that is a
    number [float] accepts is reported as it is; and any other balance
    raises once the miner line is out: [OverflowError] for an int that
    [float] refuses, [ValueError] for a string, [TypeError] for null, a
    list or an object. *)
Theorem balance_report_cases (w : world) (miner_id : string) :
  (∀ e, balance_response w miner_id = Raise e →
        report_balance w miner_id = ([], Raise e))
  ∧ (∀ body, balance_response w miner_id = Ok body →
             (∀ d, body ≠ JDict d) →
             report_balance w miner_id = ([], Raise AttributeError))
  ∧ (∀ d, balance_response w miner_id = Ok (JDict d) →
          d !! "balance_rtc" = None →
          report_balance w miner_id
          = ([MinerReport miner_id; BalanceReport (NFloat 0)], Ok Finished))
  ∧ (∀ d v b, balance_response w miner_id = Ok (JDict d) →
              d !! "balance_rtc" = Some v →
              as_num v = Some b → float_convertible b →
              report_balance w miner_id
              = ([MinerReport miner_id; BalanceReport b], Ok Finished))
  ∧ (∀ d v b, balance_response w miner_id = Ok (JDict d) →
              d !! "balance_rtc" = Some v →
              as_num v = Some b → to_float b = None →
              report_balance w miner_id
              = ([MinerReport miner_id], Raise OverflowError))
  ∧ (∀ d v, balance_response w miner_id = Ok (JDict d) →
            d !! "balance_rtc" = Some v →
            as_num v = None →
            report_balance w miner_id
            = ([MinerReport miner_id],
               Raise (match v with
                      | JStr _ => ValueError
                      | _ => TypeError
                      end))).
Proof.
  unfold report_balance, get_miner_balance, mbind, result_bind.
  split_and!.
  - by intros e ->.
  - intros body -> Hbody. destruct body; try done. by destruct (Hbody d).
  - intros d -> Hkey. simpl. by rewrite Hkey.
  - intros d v b -> Hkey Hv Hb. simpl. rewrite Hkey. simpl.
    by rewrite (proj2 (format_balance_ok v b) (conj Hv Hb)).
  - intros d v b -> Hkey Hv Hb. simpl. rewrite Hkey. simpl.
    unfold format_balance, format_f.
    destruct v; simplify_eq/=; by rewrite Hb.
  - intros d v -> Hkey Hv. simpl. rewrite Hkey. simpl. by destruct v.
Qed.

(** A use of X4: a node that knows no balance for the miner answers with
    an empty object, and 0.0 is reported. *)
Lemma balance_report_cases_witness :
  report_balance
    {| health_response := Ok JNull; epoch_response := Ok JNull;
       miners_response := Ok JNull;
       balance_response := λ _, Ok (JDict ∅);
       now := 0%float; sleep_ending := Ok tt;
       handler_sleep_ending := Ok tt |} "nobody"
  = ([MinerReport "nobody"; BalanceReport (NFloat 0)], Ok Finished).
Proof.
  match goal with
  | |- report_balance ?w ?id = _ =>
      destruct (balance_report_cases w id) as (_ & _ & H & _)
  end.
  apply (H ∅); [done | apply lookup_empty].
Defined.

(** X5. The network summary makes its three requests before it prints
    anything: when one of them fails (or is interrupted), nothing is
    printed and the exception leaves [network_summary] as it is, the
    health request being made first, the epoch request second and the
    miner list last. *)
Theorem summary_request_failure (w : world) (e : exn) :
  (get_health w = Raise e → network_summary w tt = ([], tt, Raise e))
  ∧ (∀ health, get_health w = Ok health → get_epoch w = Raise e →
               network_summary w tt = ([], tt, Raise e))
  ∧ (∀ health epoch, get_health w = Ok health → get_epoch w = Ok epoch →
                     get_miners w = Raise e →
                     network_summary w tt = ([], tt, Raise e)).
Proof.
  unfold network_summary. unfold_M. split_and!.
  - by intros ->.
  - by intros health -> ->.
  - by intros health epoch -> -> ->.
Qed.

(** A use of X5: with the node down, [main] prints nothing in summary
    mode and ends with the connection error. *)
Lemma summary_request_failure_witness :
  network_summary Samples.down tt
  = ([], tt, Raise (Exception "ConnectionError")).
Proof.
  by apply (summary_request_failure Samples.down
              (Exception "ConnectionError")).
Defined.
End one_shot.

(** ** The histogram *)

Section histogram.
Import Py Console Monitor Observe Cli Measure.

Lemma key_eqb_str (k : json) (arch : string) :
  key_eqb k (JStr arch) = eq_str k arch.
Proof. by destruct k. Qed.

Lemma key_eqb_str_l (arch : string) (k : json) :
  key_eqb (JStr arch) k = eq_str k arch.
Proof.
  destruct k; simpl; try done.
  destruct (String.eqb_spec arch s) as [->|Hne].
  - by rewrite String.eqb_refl.
  - symmetry. apply String.eqb_neq. congruence.
Qed.

(** Reading the count of a string key after one more occurrence of a key
    was counted. *)
Lemma get_after_set (d : list (json * Z)) (a : json) (arch : string)
    (v : Z) :
  Dict.get key_eqb (Dict.set key_eqb d a v) (JStr arch) 0
  = if eq_str a arch then v else Dict.get key_eqb d (JStr arch) 0.
Proof.
  induction d as [|[k n] d IH]; simpl.
  - by rewrite key_eqb_str.
  - destruct (key_eqb k a) eqn:Hka; simpl; rewrite !key_eqb_str.
    + destruct (eq_str a arch) eqn:Ha.
      * apply eq_str_spec in Ha as ->.
        rewrite key_eqb_str in Hka. by rewrite Hka.
      * destruct (eq_str k arch) eqn:Hk; [|done].
        apply eq_str_spec in Hk as ->.
        rewrite key_eqb_str_l in Hka. congruence.
    + rewrite IH. destruct (eq_str k arch) eqn:Hk; [|done].
      destruct (eq_str a arch) eqn:Ha; [|done].
      apply eq_str_spec in Hk as ->. apply eq_str_spec in Ha as ->.
      simpl in Hka. by rewrite String.eqb_refl in Hka.
Qed.

Lemma count_arch_cons (arch : string) (m : json) (rest : list json) :
  count_arch arch (m :: rest)
  = (if has_arch arch m then 1 else 0) + count_arch arch rest.
Proof.
  unfold count_arch. rewrite filter_cons.
  destruct (has_arch arch m); destruct (decide _); try done;
    simpl length; lia.
Qed.

Lemma group_by_arch_counts (miners : list json) (arch : string) :
  ∀ acc by_arch,
    group_by_arch miners acc = Ok by_arch →
    Dict.get key_eqb by_arch (JStr arch) 0
    = Dict.get key_eqb acc (JStr arch) 0 + count_arch arch miners.
Proof.
  induction miners as [|m rest IH]; intros acc by_arch; simpl.
  - intros [= ->]. unfold count_arch. simpl. lia.
  - unfold mbind, result_bind. rewrite count_arch_cons. unfold has_arch.
    destruct (get m "device_arch" (JStr "unknown")) as [a|]; [|done].
    destruct (hashable a); [|done].
    intros H. rewrite (IH _ _ H), get_after_set.
    destruct (eq_str a arch) eqn:Ha; [|lia].
    apply eq_str_spec in Ha as ->. lia.
Qed.

(** X6. The histogram counts what it should: when the grouping loop
    completes, the count stored for a string architecture is the number
    of miner records with that "device_arch" (records without the key
    counting for "unknown"), whatever other values the list holds. *)
Theorem histogram_counts (miners : list json) (by_arch : list (json * Z))
    (arch : string) :
  group_by_arch miners [] = Ok by_arch →
  Dict.get key_eqb by_arch (JStr arch) 0 = count_arch arch miners.
Proof. intros H. by rewrite (group_by_arch_counts _ _ _ _ H). Qed.

(** A use of X6: two of the four sample miners run a "G4". *)
Lemma histogram_counts_witness :
  Dict.get key_eqb
    [(JStr "G4", 2); (JStr "power8", 1); (JStr "unknown", 1)]
    (JStr "G4") 0
  = count_arch "G4"
      [Samples.alice; Samples.bob; Samples.carol; Samples.robert].
Proof. apply histogram_counts. by vm_compute. Defined.

Lemma get_nonneg (d : list (json * Z)) (k : json) :
  Forall (λ x, 1 ≤ x.2) d → 0 ≤ Dict.get key_eqb d k 0.
Proof.
  induction 1 as [|[k' n] d Hn _ IH]; simpl; [done|].
  destruct (key_eqb k' k); simpl in *; lia.
Qed.

Lemma set_distinct (d : list (json * Z)) (a : json) (v : Z) :
  distinct_keys d → distinct_keys (Dict.set key_eqb d a v).
Proof.
  induction 1 as [|[k n] d Hd IH Hk]; simpl.
  - repeat constructor.
  - destruct (key_eqb k a) eqn:Hka; constructor; try done.
    by apply (set_keys (λ y, key_eqb k y = false)).
Qed.

Lemma set_positive (d : list (json * Z)) (a : json) (v : Z) :
  Forall (λ x, 1 ≤ x.2) d → 1 ≤ v →
  Forall (λ x, 1 ≤ x.2) (Dict.set key_eqb d a v).
Proof.
  induction 1 as [|[k n] d Hn Hd IH]; intros Hv; simpl.
  - by repeat constructor.
  - destruct (key_eqb k a); constructor; auto.
Qed.

Lemma set_length (d : list (json * Z)) (a : json) (v : Z) :
  (length (Dict.set key_eqb d a v) ≤ S (length d))%nat.
Proof.
  induction d as [|[k n] d IH]; simpl; [done|].
  destruct (key_eqb k a); simpl; lia.
Qed.

Lemma group_by_arch_groups (miners : list json) :
  ∀ acc by_arch,
    group_by_arch miners acc = Ok by_arch →
    distinct_keys acc → Forall (λ x, 1 ≤ x.2) acc →
    distinct_keys by_arch
    ∧ Forall (λ x, 1 ≤ x.2) by_arch
    ∧ (length by_arch ≤ length acc + length miners)%nat.
Proof.
  induction miners as [|m rest IH]; intros acc by_arch; simpl.
  - intros [= ->] ? ?. split_and!; try done. lia.
  - unfold mbind, result_bind.
    destruct (get m "device_arch" (JStr "unknown")) as [a|]; [|done].
    destruct (hashable a); [|done].
    intros H Hacc Hpos.
    destruct (IH _ _ H) as (? & ? & Hlen).
    + by apply set_distinct.
    + apply set_positive; [done|].
      pose proof (get_nonneg acc a Hpos). lia.
    + split_and!; try done.
      pose proof (set_length acc a (Dict.get key_eqb acc a 0 + 1)). lia.
Qed.

(** Two records whose architecture is NaN are one group: the decoder
    returns the same NaN object for both, and the dictionary finds it by
    identity. *)
Example nan_rows_are_one_group :
  group_by_arch [Corner.nameless; Samples.carol; Corner.nameless] []
  = Ok [(JFloat nan, 2); (JStr "G4", 1)].
Proof. by vm_compute. Qed.

(** X7. The groups of the histogram: when the grouping loop completes, no
    two groups have equal keys, every group counts at least one miner,
    there are at most as many groups as miners, and there is no group
    exactly when the list is empty. *)
Theorem histogram_groups (miners : list json) (by_arch : list (json * Z)) :
  group_by_arch miners [] = Ok by_arch →
  distinct_keys by_arch
  ∧ Forall (λ group, 1 ≤ group.2) by_arch
  ∧ (length by_arch ≤ length miners)%nat
  ∧ (by_arch = [] ↔ miners = []).
Proof.
  intros H.
  destruct (group_by_arch_groups miners [] by_arch H) as (? & ? & ?);
    [constructor | constructor |].
  split_and!; try done.
  pose proof (group_by_arch_total miners [] by_arch H) as Htotal.
  split.
  - intros ->. destruct miners; [done|]. simpl in Htotal.
    unfold total in Htotal. simpl in Htotal. lia.
  - intros ->. simpl in H. by injection H as <-.
Qed.

(** A use of X7 on the four sample miners. *)
Lemma histogram_groups_witness :
  distinct_keys [(JStr "G4", 2); (JStr "power8", 1); (JStr "unknown", 1)].
Proof.
  apply (histogram_groups
           [Samples.alice; Samples.bob; Samples.carol; Samples.robert]).
  by vm_compute.
Defined.

Lemma get_of_member (d : list (json * Z)) (k : json) (n dflt : Z) :
  distinct_keys d → (k, n) ∈ d → key_eqb k k = true →
  Dict.get key_eqb d k dflt = n.
Proof.
  induction 1 as [|[k' n'] d Hd IH Hk']; intros Hin Hrefl; simpl.
  - by apply elem_of_nil in Hin.
  - apply elem_of_cons in Hin as [[= <- <-]|Hin].
    + by rewrite Hrefl.
    + rewrite Forall_forall in Hk'. pose proof (Hk' _ Hin) as Hne.
      simpl in Hne. rewrite Hne. by apply IH.
Qed.

Lemma member_of_get (d : list (json * Z)) (q : json) :
  Dict.get key_eqb d q 0 ≠ 0 →
  ∃ k, (k, Dict.get key_eqb d q 0) ∈ d ∧ key_eqb k q = true.
Proof.
  induction d as [|[k n] d IH]; simpl; [done|].
  destruct (key_eqb k q) eqn:Hk.
  - intros _. exists k. split; [left | done].
  - intros H. destruct (IH H) as (k' & Hin & Hk'). exists k'.
    split; [by right | done].
Qed.

(** X8. What the distribution shows: when the summary of a fetched miner
    list runs to its end, a line for a string architecture with count [n]
    is printed exactly when [n] miners of the list have that architecture
    and [n] is not zero. *)
Theorem summary_lines_are_counts (w : world) (miners : list json)
    (arch : string) (n : Z) :
  miners_response w = Ok (JList miners) →
  outcome (network_summary w tt) = Ok tt →
  (JStr arch, n) ∈ distribution (output (network_summary w tt))
  ↔ n = count_arch arch miners ∧ 0 < n.
Proof.
  intros Hm Hok.
  destruct (network_summary_distribution w miners Hm Hok)
    as (by_arch & Hgroup & ->).
  rewrite (sorted_perm (λ x : json * Z, - x.2) by_arch).
  destruct (group_by_arch_groups miners [] by_arch Hgroup) as (Hd & Hpos & _);
    [constructor | constructor |].
  assert (Dict.get key_eqb by_arch (JStr arch) 0 = count_arch arch miners)
    as Hcount
    by (rewrite (group_by_arch_counts miners arch [] by_arch Hgroup);
        simpl; lia).
  split.
  - intros Hin. rewrite <- Hcount.
    rewrite (get_of_member by_arch (JStr arch) n 0 Hd Hin)
      by (simpl; apply String.eqb_refl).
    split; [done|]. rewrite Forall_forall in Hpos.
    apply Hpos in Hin. simpl in Hin. lia.
  - intros [-> Hn]. rewrite <- Hcount in *.
    destruct (member_of_get by_arch (JStr arch)) as (k & Hin & Hk); [lia|].
    rewrite key_eqb_str in Hk. by apply eq_str_spec in Hk as ->.
Qed.

(** A use of X8: the summary of the sample node shows "G4 : 2 miners". *)
Lemma summary_lines_are_counts_witness :
  (JStr "G4", 2)
    ∈ distribution (output (network_summary (Samples.node 7 2.5) tt)).
Proof.
  apply (summary_lines_are_counts (Samples.node 7 2.5)
           [Samples.alice; Samples.bob; Samples.carol; Samples.robert]);
    by vm_compute.
Defined.

Lemma print_distribution_output (items : list (json * Z)) :
  outcome (print_distribution items tt) = Ok tt →
  output (print_distribution items tt)
  = (λ item, DistributionLine item.1 item.2) <$> items.
Proof.
  induction items as [|[arch n] items IH]; simpl; [done|].
  simp_M. destruct (format_width arch) as [a|] eqn:Ha; simp_M; [|done].
  assert (a = arch) as -> by (by destruct arch; simplify_eq/=).
  intros Hok. by rewrite IH.
Qed.

(** X9. What a summary that runs to its end has printed: the box with
    the node line (healthy exactly when the "ok" of the health answer is
    truthy, so down when the key is missing), the epoch ("N/A" when the
    epoch answer has no "current_epoch") and the number of miners, then
    the header and one line per group of [by_arch], sorted; and the
    health and epoch answers were JSON objects. *)
Theorem summary_output_when_complete (w : world) :
  outcome (network_summary w tt) = Ok tt →
  ∃ health epoch miners ms n by_arch,
    get_health w = Ok (JDict health)
    ∧ get_epoch w = Ok (JDict epoch)
    ∧ get_miners w = Ok miners
    ∧ len miners = Ok n
    ∧ iter miners = Ok ms
    ∧ group_by_arch ms [] = Ok by_arch
    ∧ output (network_summary w tt)
      = [ BoxTop; SummaryTitle; BoxRule;
          NodeLine (truthy (default (JBool false) (health !! "ok")));
          SummaryEpochLine
            (default (JStr "N/A") (epoch !! "current_epoch"));
          MinersLine n; BoxBottom; DistributionHeader ]
        ++ ((λ group, DistributionLine group.1 group.2)
              <$> Dict.sorted (λ x, - x.2) by_arch).
Proof.
  unfold network_summary. simp_M.
  destruct (get_health w) as [health|]; simp_M; [|done].
  destruct (get_epoch w) as [epoch|]; simp_M; [|done].
  destruct (get_miners w) as [miners|]; simp_M; [|done].
  destruct health as [| | | | | |health]; simp_M; try done.
  destruct epoch as [| | | | | |epoch]; simp_M; try done.
  destruct (format_width _) as [e|] eqn:He; simp_M; [|done].
  assert (e = default (JStr "N/A") (epoch !! "current_epoch")) as ->.
  { revert He. generalize (default (JStr "N/A") (epoch !! "current_epoch")).
    intros v. destruct v; simpl; congruence. }
  destruct (len miners) as [n|] eqn:Hn; simp_M; [|done].
  destruct (iter miners) as [ms|] eqn:Hms; simp_M; [|done].
  destruct (group_by_arch ms []) as [by_arch|] eqn:Hgroup; simp_M; [|done].
  intros Hok. exists health, epoch, miners, ms, n, by_arch.
  split_and!; try done.
  by rewrite (print_distribution_output _ Hok).
Qed.

(** A use of X9 on the sample node. *)
Lemma summary_output_when_complete_witness :
  ∃ health epoch miners ms n by_arch,
    get_health (Samples.node 7 2.5) = Ok (JDict health)
    ∧ get_epoch (Samples.node 7 2.5) = Ok (JDict epoch)
    ∧ get_miners (Samples.node 7 2.5) = Ok miners
    ∧ len miners = Ok n
    ∧ iter miners = Ok ms
    ∧ group_by_arch ms [] = Ok by_arch
    ∧ output (network_summary (Samples.node 7 2.5) tt)
      = [ BoxTop; SummaryTitle; BoxRule;
          NodeLine (truthy (default (JBool false) (health !! "ok")));
          SummaryEpochLine
            (default (JStr "N/A") (epoch !! "current_epoch"));
          MinersLine n; BoxBottom; DistributionHeader ]
        ++ ((λ group, DistributionLine group.1 group.2)
              <$> Dict.sorted (λ x, - x.2) by_arch).
Proof.
  apply (summary_output_when_complete (Samples.node 7 2.5)).
  by vm_compute.
Defined.
End histogram.


(** ** More on the watch loop *)

Section watch_more.
Import Py Console Monitor Observe Cli Measure.

Lemma show_miner_events (m : json) (w : world) (st : state) :
  Forall (λ e, snapshot_event e = true) (output (show_miner m w st)).
Proof.
  unfold show_miner. run_M; try by repeat constructor.
  match goal with p : (string * float)%type |- _ => destruct p end.
  run_M; by repeat constructor.
Qed.

Lemma display_events (miner_id : string) (w : world) (f : fetched)
    (st : state) :
  Forall (λ e, snapshot_event e = true) (output (display miner_id w f st)).
Proof.
  assert (Forall (λ e, snapshot_event e = true)
            (output (match our_miner f with
                     | Some m =>
                         if truthy m then show_miner m w
                         else print NotFoundLine
                     | None => print NotFoundLine
                     end st))) as Hminer.
  { destruct (our_miner f) as [m|]; [destruct (truthy m)|];
      try by repeat constructor.
    apply show_miner_events. }
  unfold display. run_M; repeat (constructor; [done|]);
    rewrite ?Forall_app; try done.
  split; [done | by repeat constructor].
Qed.

Lemma check_epoch_events (bal : num) (f : fetched) (st : state) :
  Forall (λ e, snapshot_event e = true) (output (check_epoch bal f st)).
Proof.
  unfold check_epoch. simp_M.
  destruct (numeric (current_epoch f)) as [epoch|]; simp_M; [|done].
  destruct (gt epoch (last_epoch st) && gt (last_epoch st) (NInt 0));
    simp_M; [|done].
  destruct (sub bal (last_balance st)) as [reward|]; simp_M; [|done].
  destruct (format_f reward); simp_M; by repeat constructor.
Qed.

(** Lines 81-122 print snapshot lines and alerts only. *)
Lemma snapshot_events (miner_id : string) (w : world) (st : state) :
  Forall (λ e, snapshot_event e = true) (output (snapshot miner_id w st)).
Proof.
  unfold snapshot. simp_M.
  destruct (poll miner_id w) as [f|]; simp_M; [|done].
  pose proof (display_events miner_id w f st).
  destruct (outcome (display miner_id w f st)) as [bal|]; simp_M; [|done].
  pose proof (check_epoch_events bal f (final (display miner_id w f st))).
  destruct (outcome (check_epoch _ _ _)); simp_M;
    rewrite ?Forall_app, ?app_nil_r; done.
Qed.

Lemma sleeps_app (out1 out2 : list event) :
  sleeps (out1 ++ out2) = sleeps out1 ++ sleeps out2.
Proof. apply omap_app. Qed.

Lemma sleeps_snapshot_events (out : list event) :
  Forall (λ e, snapshot_event e = true) out → sleeps out = [].
Proof.
  induction 1 as [|e out He _ IH]; [done|].
  destruct e; try done; exact IH.
Qed.

(** The way an iteration ends, by the way its lines 81-122 and its two
    sleeps end. *)
Lemma iteration_cases (miner_id : string) (interval : Z) (w : world)
    (st : state) :
  let nap (ending : result unit) :=
    match sleep_refusal interval with
    | Some e => Raise e
    | None => ending
    end in
  let waited :=
    match sleep_refusal interval with
    | Some _ => []
    | None => [Sleep interval]
    end in
  let handled (cls : string) (before : list event) :=
    (before ++ ErrorLine (Exception cls) :: waited,
     match nap (handler_sleep_ending w) with
     | Ok _ => Ok Continue
     | Raise e => Raise e
     end) in
  (output (iteration miner_id interval w st),
   outcome (iteration miner_id interval w st))
  = match outcome (snapshot miner_id w st) with
    | Ok _ =>
        let slept := output (snapshot miner_id w st) ++ waited in
        match nap (sleep_ending w) with
        | Ok _ => (slept, Ok Continue)
        | Raise KeyboardInterrupt => (slept ++ [Farewell], Ok Break)
        | Raise (Exception cls) => handled cls slept
        end
    | Raise KeyboardInterrupt =>
        (output (snapshot miner_id w st) ++ [Farewell], Ok Break)
    | Raise (Exception cls) => handled cls (output (snapshot miner_id w st))
    end.
Proof.
  simpl. rewrite iteration_run. simpl.
  rewrite ?output_sleep, ?outcome_sleep.
  pose proof (try_body_run miner_id interval w st) as Hbody.
  destruct (outcome (snapshot miner_id w st)) as [[bal epoch]|e].
  - destruct Hbody as (-> & _ & ->).
    destruct (sleep_refusal interval) as [[|cls]|]; simpl; try done.
    by destruct (sleep_ending w) as [[]|[|cls]].
  - destruct Hbody as (-> & _ & ->).
    destruct e as [|cls]; [done|].
    by destruct (sleep_refusal interval).
Qed.

(** What [time.sleep] raises for the lengths it refuses. *)
Lemma sleep_refused (interval : Z) :
  (interval < -9223372036 ∨ 9223372036 < interval →
   sleep_refusal interval = Some OverflowError)
  ∧ (-9223372036 ≤ interval < 0 →
     sleep_refusal interval = Some ValueError).
Proof.
  unfold sleep_refusal.
  destruct (Z.ltb_spec interval (-9223372036)),
    (Z.ltb_spec 9223372036 interval), (Z.ltb_spec interval 0);
    simpl; split; intros; try done; lia.
Qed.

Lemma sleep_refusal_exception (interval : Z) (e : exn) :
  sleep_refusal interval = Some e → e ≠ KeyboardInterrupt.
Proof.
  unfold sleep_refusal. repeat case_match; by intros [= <-].
Qed.

(** X10. An [--interval] that [time.sleep] refuses ends the watch loop in
    its first iteration: the call raises in the [try] block and again in
    the handler, so the iteration never waits and never goes on to the
    next one; it ends with the exception of [time.sleep], or with the
    farewell when an interrupt came during lines 81-122. The exception is
    [ValueError] for a negative interval down to -9223372036 and
    [OverflowError] for an interval below that or above 9223372036. *)
Theorem refused_interval_ends_the_loop (miner_id : string)
    (interval : Z) (w : world) (ws : list world) (st : state) (e : exn) :
  sleep_refusal interval = Some e →
  sleeps (output (iteration miner_id interval w st)) = []
  ∧ (outcome (snapshot miner_id w st) = Raise KeyboardInterrupt →
     outcome (iteration miner_id interval w st) = Ok Break)
  ∧ (outcome (snapshot miner_id w st) ≠ Raise KeyboardInterrupt →
     outcome (iteration miner_id interval w st) = Raise e)
  ∧ output (loop miner_id interval (w :: ws) st)
    = output (iteration miner_id interval w st)
  ∧ outcome (loop miner_id interval (w :: ws) st)
    = outcome (iteration miner_id interval w st)
  ∧ (-9223372036 ≤ interval < 0 → e = ValueError)
  ∧ (interval < -9223372036 ∨ 9223372036 < interval → e = OverflowError).
Proof.
  intros Hrefused.
  pose proof (sleep_refusal_exception interval e Hrefused) as He.
  pose proof (iteration_cases miner_id interval w st) as Hit.
  pose proof (snapshot_events miner_id w st) as Hev.
  apply sleeps_snapshot_events in Hev.
  pose proof (loop_step miner_id interval w ws st) as Hloop.
  destruct (sleep_refused interval) as [Hover Hneg].
  simpl in Hit. rewrite Hrefused in Hit.
  assert ((-9223372036 ≤ interval < 0 → e = ValueError)
          ∧ (interval < -9223372036 ∨ 9223372036 < interval
             → e = OverflowError)) as [??]
    by (split; intros H; [apply Hneg in H | apply Hover in H]; congruence).
  destruct e as [|cls]; [done|].
  destruct (outcome (snapshot miner_id w st)) as [[bal epoch]|[|cls']];
    injection Hit as Hout Hres; rewrite Hres in Hloop;
    destruct Hloop as [Hloop1 Hloop2]; rewrite Hloop1, Hloop2, Hres;
    (split_and!; [by rewrite Hout, !sleeps_app, Hev | done..]).
Qed.

(** A use of X10: [--interval -1] against the sample node. *)
Lemma refused_interval_ends_the_loop_witness :
  outcome (loop "alice" (-1) [Samples.node 4 2.5; Samples.node 5 1]
             initial)
  = Raise ValueError.
Proof.
  destruct (refused_interval_ends_the_loop
              "alice" (-1) (Samples.node 4 2.5) [Samples.node 5 1] initial
              ValueError) as (_ & _ & Hres & _ & -> & _); [done|].
  apply Hres. vm_compute. intros H. discriminate H.
Defined.

(** X11. Every iteration after which the loop goes on has called
    [time.sleep(interval)], with an interval the call accepts (from 0 to
    9223372036): once, or twice when the first call raised an exception
    that the handler caught; exactly once when the first call returns. *)
Theorem continuing_iteration_called_sleep (miner_id : string)
    (interval : Z) (w : world) (st : state) :
  outcome (iteration miner_id interval w st) = Ok Continue →
  0 ≤ interval ≤ 9223372036
  ∧ (sleeps (output (iteration miner_id interval w st)) = [interval]
     ∨ sleeps (output (iteration miner_id interval w st))
       = [interval; interval])
  ∧ (sleep_ending w = Ok tt →
     sleeps (output (iteration miner_id interval w st)) = [interval]).
Proof.
  pose proof (iteration_cases miner_id interval w st) as Hit.
  pose proof (snapshot_events miner_id w st) as Hev.
  apply sleeps_snapshot_events in Hev.
  pose proof (sleep_accepted interval) as Hacc.
  simpl in Hit.
  destruct (sleep_refusal interval) as [e|] eqn:Hrefusal.
  - pose proof (sleep_refusal_exception interval e Hrefusal).
    destruct e as [|cls0]; [done|].
    destruct (outcome (snapshot miner_id w st)) as [[bal epoch]|[|cls]];
      injection Hit as _ ->; done.
  - apply proj1 in Hacc. specialize (Hacc eq_refl).
    destruct (outcome (snapshot miner_id w st)) as [[bal epoch]|[|cls]].
    + destruct (sleep_ending w) as [[]|[|cls]];
        injection Hit as -> ->; try done;
        rewrite !sleeps_app, Hev; simpl; intros _;
        (split_and!; auto; try lia; done).
    + injection Hit as _ ->. done.
    + injection Hit as -> ->. rewrite !sleeps_app, Hev. simpl.
      intros _. split_and!; auto; lia.
Qed.

(** A use of X11: the first iteration against the sample node calls
    [time.sleep(60)] once. *)
Lemma continuing_iteration_called_sleep_witness :
  sleeps (output (iteration "alice" 60 (Samples.node 4 2.5) initial))
  = [60].
Proof.
  destruct (continuing_iteration_called_sleep
              "alice" 60 (Samples.node 4 2.5) initial) as (_ & _ & H);
    [by vm_compute|].
  by apply H.
Defined.

(** X12. The reward across two iterations: when an iteration completes
    its lines 81-122 with balance [bal1] and a positive epoch [e1], and
    the next one completes them with balance [bal2] and a greater epoch,
    the first leaves [bal1] and [e1] in the two variables and the second
    announces exactly one reward, [bal2 - bal1]. *)
Theorem reward_across_two_iterations (miner_id : string) (interval : Z)
    (w1 w2 : world) (st : state) (bal1 e1 bal2 e2 : num) :
  outcome (snapshot miner_id w1 st) = Ok (bal1, e1) →
  outcome (snapshot miner_id w2
             {| last_balance := bal1; last_epoch := e1 |}) = Ok (bal2, e2) →
  gt e2 e1 = true →
  gt e1 (NInt 0) = true →
  final (iteration miner_id interval w1 st)
    = {| last_balance := bal1; last_epoch := e1 |}
  ∧ ∃ reward,
      sub bal2 bal1 = Ok reward
      ∧ alerts (output (iteration miner_id interval w2
                          (final (iteration miner_id interval w1 st))))
        = [reward].
Proof.
  intros Hfirst Hsecond Hgt Hpos.
  rewrite iteration_state, Hfirst. split; [done|].
  set (st1 := {| last_balance := bal1; last_epoch := e1 |}) in *.
  apply snapshot_outcome in Hsecond as (f & Hpoll & Hdisplay & Hcheck).
  destruct (proj2 (check_epoch_completes bal2 f st1 e2 Hcheck))
    as [reward Halert]; [done|].
  rewrite <- (iteration_alerts_displayed miner_id interval w2 st1 f bal2)
    in Halert by done.
  exists reward. split; [|done].
  destruct (iteration_alert_inv miner_id interval w2 st1 reward)
    as (f' & bal' & _ & Hpoll' & Hdisplay' & _ & _ & _ & Hsub & _).
  { rewrite Halert. left. }
  assert (f' = f) as -> by congruence.
  assert (bal' = bal2) as -> by congruence.
  done.
Qed.

(** A use of X12: 2.5 at epoch 4, then 1.0 at epoch 5. *)
Lemma reward_across_two_iterations_witness :
  ∃ reward,
    sub (NFloat 1) (NFloat 2.5) = Ok reward
    ∧ alerts (output (iteration "alice" 60 (Samples.node 5 1)
                        (final (iteration "alice" 60 (Samples.node 4 2.5)
                                  initial))))
      = [reward].
Proof.
  apply (reward_across_two_iterations "alice" 60 (Samples.node 4 2.5)
           (Samples.node 5 1) initial (NFloat 2.5) (NInt 4) (NFloat 1)
           (NInt 5)); by vm_compute.
Defined.






Lemma ltb_irrefl (x : float) : (x <? x)%float = false.
Proof.
  rewrite ltb_spec. unfold SFltb, SFcompare.
  destruct (Prim2SF x) as [s|s| |s m e]; try done.
  - by destruct s.
  - by destruct s; rewrite Z.compare_refl, Pos.compare_cont_refl.
Qed.

Lemma gt_irrefl (n : num) : gt n n = false.
Proof.
  destruct n as [z|x]; simpl.
  - rewrite Z.gtb_ltb. apply Z.ltb_irrefl.
  - apply ltb_irrefl.
Qed.

Lemma SFcompare_eq_sym (a b : spec_float) :
  SFcompare a b = Some Eq → SFcompare b a = Some Eq.
Proof.
  destruct a as [s|s| |s m e], b as [s'|s'| |s' m' e']; simpl; try done;
    try (by destruct s); try (by destruct s'); try (by destruct s, s').
  destruct s, s'; try done;
    destruct (e ?= e')%Z eqn:He; try done;
    destruct (Pos.compare_cont Eq m m') eqn:Hm; try done;
    apply Z.compare_eq in He as ->; apply Pos.compare_eq in Hm as ->;
    intros _; by rewrite Z.compare_refl, Pos.compare_cont_refl.
Qed.

Lemma eqb_not_ltb (x y : float) :
  (x =? y)%float = true → (y <? x)%float = false.
Proof.
  rewrite FloatAxioms.eqb_spec, FloatAxioms.ltb_spec. unfold SFeqb, SFltb.
  destruct (SFcompare (Prim2SF x) (Prim2SF y)) as [[]|] eqn:E; try done.
  intros _. by rewrite (SFcompare_eq_sym _ _ E).
Qed.

(** Two numbers that compare equal are not one above the other. *)
Lemma num_eqb_not_gt (a b : num) : num_eqb a b = true → gt a b = false.
Proof.
  destruct a as [x|x], b as [y|y]; simpl.
  - intros ->%Z.eqb_eq. rewrite Z.gtb_ltb. apply Z.ltb_irrefl.
  - by destruct (compare_int_float x y) as [[]|].
  - by destruct (compare_int_float y x) as [[]|].
  - apply eqb_not_ltb.
Qed.

(** X14. No alert while the epoch stands still: when the current epoch
    fetched equals the last epoch stored, as Python compares numbers (4
    and 4.0 and [True] and 1 are equal) or as the same number, the
    iteration announces nothing, whatever the balances are. *)
Theorem no_alert_when_epoch_unchanged (miner_id : string) (interval : Z)
    (w : world) (st : state) (f : fetched) (epoch : num) :
  poll miner_id w = Ok f →
  as_num (current_epoch f) = Some epoch →
  num_eqb epoch (last_epoch st) = true ∨ epoch = last_epoch st →
  alerts (output (iteration miner_id interval w st)) = [].
Proof.
  intros Hpoll Hepoch Hsame.
  assert (gt epoch (last_epoch st) = false) as Hnot.
  { destruct Hsame as [Heq| ->]; [by apply num_eqb_not_gt|].
    apply gt_irrefl. }
  destruct (alerts (output (iteration miner_id interval w st)))
    as [|reward rest] eqn:E; [done|].
  destruct (iteration_alert_inv miner_id interval w st reward)
    as (f' & _ & epoch' & Hpoll' & _ & Hepoch' & Hgt & _).
  { rewrite E. left. }
  assert (f' = f) as -> by congruence.
  assert (epoch' = epoch) as -> by congruence.
  congruence.
Qed.

(** A use of X14: epoch 4 is stored as the float 4.0 and fetched as the
    int 4, with another balance. *)
Lemma no_alert_when_epoch_unchanged_witness :
  alerts (output (iteration "alice" 60 (Samples.node 4 9)
                    {| last_balance := NFloat 2.5;
                       last_epoch := NFloat 4 |})) = [].
Proof.
  eapply (no_alert_when_epoch_unchanged "alice" 60 (Samples.node 4 9)
            {| last_balance := NFloat 2.5; last_epoch := NFloat 4 |}
            _ (NInt 4)); [by vm_compute | by vm_compute |].
  left. by vm_compute.
Defined.

(** A miner the search found is a non-empty object: the test
    [if our_miner:] cannot take it for missing. *)
Lemma found_miner_truthy (miner_id : string) (w : world) (f : fetched)
    (m : json) :
  poll miner_id w = Ok f → our_miner f = Some m →
  ∃ d, m = JDict d ∧ truthy m = true.
Proof.
  intros Hpoll Hm.
  apply poll_fetched in Hpoll as (_ & _ & ms & _ & _ & _ & Hfind).
  rewrite Hm in Hfind.
  apply find_miner_some in Hfind as (_ & _ & _ & _ & Hmatch).
  apply is_our_miner_spec in Hmatch as (d & -> & Hkey).
  exists d. split; [done|]. simpl.
  rewrite bool_decide_eq_false_2; [done|].
  intros ->. rewrite !lookup_empty in Hkey. by destruct Hkey.
Qed.

(** X15. What a displayed snapshot shows. After the header, the miner id
    cut to 40 characters, the balance and the epoch, the box shows "not
    found" exactly when no record of the list matched; for a record that
    matched it shows the architecture (a string, "unknown" when the
    record has none), the expected reward of that architecture, and the
    status, active exactly when the clock is less than 3600 seconds past
    the record's attestation time (0 when the record has none). *)
Theorem snapshot_box_contents (miner_id : string) (w : world)
    (f : fetched) (st : state) (bal : num) :
  poll miner_id w = Ok f →
  outcome (display miner_id w f st) = Ok bal →
  match our_miner f with
  | None =>
      output (display miner_id w f st)
      = [ ClearScreen; BoxTop; Title; BoxRule;
          MinerIdLine (substring 0 40 miner_id); BalanceLine bal;
          EpochLine (current_epoch f); BoxRule;
          NotFoundLine; BoxBottom ]
  | Some m =>
      ∃ d arch last_attest t,
        m = JDict d
        ∧ default (JStr "unknown") (d !! "device_arch") = JStr arch
        ∧ as_num (default (JInt 0) (d !! "last_attestation_time"))
          = Some last_attest
        ∧ to_float last_attest = Some t
        ∧ output (display miner_id w f st)
          = [ ClearScreen; BoxTop; Title; BoxRule;
              MinerIdLine (substring 0 40 miner_id); BalanceLine bal;
              EpochLine (current_epoch f); BoxRule;
              HardwareLine arch;
              ExpectedLine (Reward.calculate_expected_reward arch);
              StatusLine (gt (NInt 3600) (NFloat (now w - t)%float));
              BoxBottom ]
  end.
Proof.
  intros Hpoll.
  destruct (our_miner f) as [m|] eqn:Hm.
  - destruct (found_miner_truthy miner_id w f m Hpoll Hm)
      as (d & -> & Htruthy).
    unfold display. rewrite Hm, Htruthy. simp_M.
    destruct (format_balance (balance f)) as [b|]; simp_M; [|done].
    unfold show_miner. simp_M.
    destruct (default (JStr "unknown") (d !! "device_arch"))
      as [| | | |arch| |] eqn:Harch; simp_M; try done.
    unfold is_active.
    destruct (as_num (default (JInt 0) (d !! "last_attestation_time")))
      as [last_attest|] eqn:Hlast; simp_M; [|done].
    destruct (to_float last_attest) as [t|] eqn:Ht; simp_M; [|done].
    intros [= <-]. by exists d, arch, last_attest, t.
  - unfold display. rewrite Hm. simp_M.
    destruct (format_balance (balance f)) as [b|]; simp_M; [|done].
    by intros [= <-].
Qed.

(** A use of X15: the snapshot of "alice" on the sample node. *)
Lemma snapshot_box_contents_witness :
  ∃ d arch last_attest t,
    Samples.alice = JDict d
    ∧ default (JStr "unknown") (d !! "device_arch") = JStr arch
    ∧ as_num (default (JInt 0) (d !! "last_attestation_time"))
      = Some last_attest
    ∧ to_float last_attest = Some t
    ∧ output (display "alice" (Samples.node 4 2.5)
                {| balance := JFloat 2.5; our_miner := Some Samples.alice;
                   current_epoch := JInt 4 |} initial)
      = [ ClearScreen; BoxTop; Title; BoxRule;
          MinerIdLine (substring 0 40 "alice"); BalanceLine (NFloat 2.5);
          EpochLine (JInt 4); BoxRule;
          HardwareLine arch;
          ExpectedLine (Reward.calculate_expected_reward arch);
          StatusLine (gt (NInt 3600)
                        (NFloat (now (Samples.node 4 2.5) - t)%float));
          BoxBottom ].
Proof.
  apply (snapshot_box_contents "alice" (Samples.node 4 2.5)
           {| balance := JFloat 2.5; our_miner := Some Samples.alice;
              current_epoch := JInt 4 |} initial (NFloat 2.5));
    by vm_compute.
Defined.

Lemma snapshot_events_no_farewell (out : list event) :
  Forall (λ e, snapshot_event e = true) out →
  Forall (λ e, is_farewell e = false) out.
Proof. intros H. eapply Forall_impl; [exact H|]. by intros []. Qed.

(** The farewell of one iteration: last, and only on [break]. *)
Lemma iteration_farewell (miner_id : string) (interval : Z) (w : world)
    (st : state) :
  match outcome (iteration miner_id interval w st) with
  | Ok Break =>
      ∃ before,
        output (iteration miner_id interval w st) = before ++ [Farewell]
        ∧ Forall (λ e, is_farewell e = false) before
  | _ =>
      Forall (λ e, is_farewell e = false)
        (output (iteration miner_id interval w st))
  end.
Proof.
  pose proof (iteration_cases miner_id interval w st) as Hit.
  pose proof (snapshot_events_no_farewell _
                (snapshot_events miner_id w st)) as Hev.
  simpl in Hit.
  destruct (outcome (snapshot miner_id w st)) as [[bal epoch]|[|cls]].
  - destruct (sleep_refusal interval) as [e|] eqn:Hrefusal; simpl in Hit.
    + pose proof (sleep_refusal_exception interval e Hrefusal).
      destruct e as [|cls0]; [done|].
      injection Hit as -> ->.
      rewrite !Forall_app. by repeat constructor.
    + destruct (sleep_ending w) as [[]|[|cls]].
      * injection Hit as -> ->. rewrite !Forall_app. by repeat constructor.
      * injection Hit as -> ->. eexists. split; [done|].
        rewrite !Forall_app. by repeat constructor.
      * injection Hit as -> ->.
        destruct (handler_sleep_ending w) as [[]|];
          rewrite !Forall_app; by repeat constructor.
  - injection Hit as -> ->. by eexists.
  - injection Hit as -> ->.
    destruct (sleep_refusal interval) as [e|]; simpl;
      [|destruct (handler_sleep_ending w) as [[]|]];
      rewrite !Forall_app; by repeat constructor.
Qed.

(** X17. The farewell is the last thing the loop prints, and it is
    printed exactly when the loop ends by [break]: in that case the output
    ends with the farewell and holds no other; in every other case (the
    loop still running, or left by an exception) there is none. *)
Theorem farewell_ends_the_output (miner_id : string) (interval : Z)
    (ws : list world) (st : state) :
  (outcome (loop miner_id interval ws st) = Ok Break →
   ∃ before,
     output (loop miner_id interval ws st) = before ++ [Farewell]
     ∧ Forall (λ e, is_farewell e = false) before)
  ∧ (outcome (loop miner_id interval ws st) ≠ Ok Break →
     Forall (λ e, is_farewell e = false)
       (output (loop miner_id interval ws st))).
Proof.
  revert st. induction ws as [|w ws IH]; intros st.
  - split; [done | by constructor].
  - pose proof (loop_step miner_id interval w ws st) as Hloop.
    pose proof (iteration_farewell miner_id interval w st) as Hit.
    destruct (outcome (iteration miner_id interval w st)) as [[]|e].
    + destruct Hloop as [-> ->].
      destruct (IH (final (iteration miner_id interval w st)))
        as [IH1 IH2].
      split.
      * intros Hbreak. destruct (IH1 Hbreak) as (before & -> & Hbefore).
        exists (output (iteration miner_id interval w st) ++ before).
        rewrite Forall_app, app_assoc. done.
      * intros Hother. rewrite Forall_app. auto.
    + destruct Hloop as [-> ->]. split; [done|]. congruence.
    + destruct Hloop as [-> ->]. by split.
Qed.

(** A use of X17: Ctrl-C while the second round fetches the epoch. *)
Lemma farewell_ends_the_output_witness :
  ∃ before,
    output (loop "alice" 60
              [Samples.node 4 2.5; Samples.interrupt_on_fetch] initial)
    = before ++ [Farewell]
    ∧ Forall (λ e, is_farewell e = false) before.
Proof.
  apply (farewell_ends_the_output "alice" 60
           [Samples.node 4 2.5; Samples.interrupt_on_fetch] initial).
  by vm_compute.
Defined.

(** X18. The subtraction of line 121 cannot fail in the watch loop: in
    every state [watch_miner] reaches, the stored balance is a number
    [float] accepts, and so is every balance that has been displayed, so
    that their difference is defined. *)
Theorem reward_subtraction_is_defined (miner_id : string) (interval : Z)
    (ws : list world) (st0 : state) (w : world) (f : fetched) (bal : num) :
  outcome (display miner_id w f
             (final (watch_miner miner_id interval ws st0))) = Ok bal →
  float_convertible
    (last_balance (final (watch_miner miner_id interval ws st0)))
  ∧ float_convertible bal
  ∧ ∃ reward,
      sub bal (last_balance (final (watch_miner miner_id interval ws st0)))
      = Ok reward.
Proof.
  intros Hdisplay.
  assert (float_convertible
            (last_balance (final (watch_miner miner_id interval ws st0))))
    as Hlast.
  { unfold watch_miner. simp_M.
    apply loop_keeps_convertible. by eexists. }
  apply display_balance in Hdisplay as [_ Hbal].
  split_and!; try done. by apply sub_defined.
Qed.

(** A use of X18: after two rounds, facing a third. *)
Lemma reward_subtraction_is_defined_witness :
  ∃ reward,
    sub (NFloat 1)
      (last_balance
         (final (watch_miner "alice" 60
                   [Samples.node 4 2.5; Samples.down] initial)))
    = Ok reward.
Proof.
  apply (reward_subtraction_is_defined "alice" 60
           [Samples.node 4 2.5; Samples.down] initial (Samples.node 5 1)
           {| balance := JFloat 1; our_miner := None;
              current_epoch := JInt 5 |} (NFloat 1)).
  by vm_compute.
Defined.

Lemma iteration_alerts_length (miner_id : string) (interval : Z)
    (w : world) (st : state) :
  (length (alerts (output (iteration miner_id interval w st))) ≤ 1)%nat.
Proof.
  destruct (alerts (output (iteration miner_id interval w st)))
    as [|reward rest] eqn:E; simpl; [lia|].
  destruct (iteration_alert_inv miner_id interval w st reward)
    as (_ & _ & _ & _ & _ & _ & _ & _ & _ & _ & Hone).
  { rewrite E. left. }
  rewrite E in Hone. injection Hone as ->. simpl. lia.
Qed.

(** X19. At most one reward is announced per iteration: whatever the
    rounds bring, the loop prints no more epoch alerts than it is given
    rounds, and [watch_miner], whose first iteration never announces one,
    prints at least one fewer. *)
Theorem alerts_at_most_one_per_iteration (miner_id : string)
    (interval : Z) (ws : list world) (st : state) :
  (length (alerts (output (loop miner_id interval ws st)))
   ≤ length ws)%nat
  ∧ (length (alerts (output (watch_miner miner_id interval ws st)))
     ≤ length ws - 1)%nat.
Proof.
  assert (∀ ws st,
            (length (alerts (output (loop miner_id interval ws st)))
             ≤ length ws)%nat) as Hloop.
  { clear. intros ws. induction ws as [|w ws IH]; intros st; [done|].
    pose proof (loop_step miner_id interval w ws st) as Hstep.
    pose proof (iteration_alerts_length miner_id interval w st) as Hone.
    destruct (outcome (iteration miner_id interval w st)) as [[]|e];
      destruct Hstep as [-> _]; rewrite ?alerts_app, ?length_app; simpl.
    - specialize (IH (final (iteration miner_id interval w st))). lia.
    - lia.
    - lia. }
  split; [apply Hloop|].
  unfold watch_miner. simp_M.
  destruct ws as [|w ws]; [done|].
  pose proof (loop_step miner_id interval w ws initial) as Hstep.
  pose proof (no_alert_without_last_epoch miner_id interval w initial
                gt_zero_zero) as Hfirst.
  destruct (outcome (iteration miner_id interval w initial)) as [[]|e];
    destruct Hstep as [-> _]; rewrite ?alerts_app, ?length_app, Hfirst;
    simpl; try lia.
  specialize (Hloop ws (final (iteration miner_id interval w initial))).
  lia.
Qed.
End watch_more.
